(** * Forensic face recognition: the face-matching core

    A shallow embedding of [core/face_recognition_engine.py] and
    [core/batch_processor.py].

    Conventions.
    - Python floats (numpy float scalars) are idealised as real numbers;
      the only places where IEEE special values decide the outcome
      (division by a zero norm) are written out by hand.
    - numpy [int32] scalars are integers in [Z] with their wrap-around
      written out ([int32]).
    - A raised Python exception is the [Raise] case of [pyresult], carrying
      the text [str(e)].
    - OpenCV, the file system and the injected face engine's database
      search are outside the two modules: the calls the code makes into
      them are the [Variable]s of section [Core]. *)

From Stdlib Require Import String Ascii Reals Lra ZArith Lia Bool Arith List.
From Stdlib Require Import Permutation Sorted DecimalString.
From Stdlib Require Strings.Byte.
Import ListNotations.

Open Scope string_scope.
Open Scope list_scope.

(** ** Python values *)

(** Outcome of a Python call: a value, or an exception with its text. *)
Inductive pyresult (A : Type) : Type :=
| Ok (a : A)
| Raise (msg : string).
Arguments Ok {A} a.
Arguments Raise {A} msg.

Definition bind {A B : Type} (m : pyresult A) (k : A -> pyresult B) : pyresult B :=
  match m with
  | Ok a => k a
  | Raise msg => Raise msg
  end.

Notation "x <- m ;; k" := (bind m (fun x => k))
  (at level 61, m at next level, right associativity).

(** The values stored in the result dictionaries. *)
Inductive pyval : Type :=
| PyNone
| PyBool (b : bool)
| PyFloat (r : R)
| PyInt (z : Z)
| PyStr (s : string).

(** A dict literal, in insertion order. *)
Definition pydict : Type := list (string * pyval).

Fixpoint dict_get (d : pydict) (k : string) : option pyval :=
  match d with
  | [] => None
  | (k', v) :: d' => if String.eqb k k' then Some v else dict_get d' k
  end.

(** ** Numbers *)

Definition Rgtb (a b : R) : bool := if Rgt_dec a b then true else false.
Definition Rgeb (a b : R) : bool := if Rge_dec a b then true else false.

(** Python's [max(0, x)]: the first argument is kept unless the second is
    strictly greater. *)
Definition py_max0 (x : R) : R := if Rgt_dec x 0 then x else 0%R.

(** A numpy [int32] scalar: arithmetic wraps around. *)
Definition int32 (z : Z) : Z := ((z + 2 ^ 31) mod 2 ^ 32 - 2 ^ 31)%Z.

(** A one-dimensional numpy array of floats. *)
Definition ndarray : Type := list R.

Fixpoint zip_sub (a b : ndarray) : ndarray :=
  match a, b with
  | x :: a', y :: b' => (x - y)%R :: zip_sub a' b'
  | _, _ => []
  end.

(** [a - b] on one-dimensional arrays: elementwise on equal shapes, a
    length-1 operand is broadcast, any other pair of shapes raises
    [ValueError]. *)
Definition np_sub (a b : ndarray) : pyresult ndarray :=
  if Nat.eqb (length a) (length b) then Ok (zip_sub a b)
  else if Nat.eqb (length a) 1 then Ok (map (fun y => (hd 0%R a - y)%R) b)
  else if Nat.eqb (length b) 1 then Ok (map (fun x => (x - hd 0%R b)%R) a)
  else Raise "operands could not be broadcast together".

Definition sum_squares (v : ndarray) : R :=
  fold_right (fun x acc => (x * x + acc)%R) 0%R v.

(** [np.linalg.norm(v)] *)
Definition np_linalg_norm (v : ndarray) : R := sqrt (sum_squares v).

(** ** FaceRecognitionEngine: scoring *)

(** [calculate_similarity(encoding1, encoding2)].  [None] is Python's
    [None].  For an empty [encoding1] the divisor [np.sqrt(0)] is zero, the
    quotient is [nan] or [inf], and [max(0, .)] keeps its first argument. *)
Definition calculate_similarity (encoding1 encoding2 : option ndarray)
  : pyresult R :=
  match encoding1, encoding2 with
  | None, _ | _, None => Ok 0%R
  | Some e1, Some e2 =>
      diff <- np_sub e1 e2 ;;
      let distance := np_linalg_norm diff in
      let max_distance := sqrt (INR (length e1)) in
      if Nat.eqb (length e1) 0 then Ok 0%R
      else
        let normalized_distance := (distance / max_distance)%R in
        let similarity := py_max0 ((1 - normalized_distance) * 100) in
        Ok similarity
  end.

(** ** Gallery entries and results *)

(** One element of [known_encodings_dict].  ['encoding'] is always present
    (its value may be [None]); for the other keys [None] stands for a
    missing key. *)
Record known_face : Type := {
  encoding : option ndarray;
  name : option string;
  criminal_id : option Z;
  criminal_code : option string
}.

Definition opt_int (o : option Z) : pyval :=
  match o with Some z => PyInt z | None => PyNone end.
Definition opt_str (o : option string) : pyval :=
  match o with Some s => PyStr s | None => PyNone end.

(** The dict returned on the three no-match paths. *)
Definition no_match : pydict :=
  [("matched", PyBool false); ("name", PyStr "Unknown");
   ("confidence", PyFloat 0); ("criminal_id", PyNone)].

(** The dict returned for a best match. *)
Definition matched_result (best_match : known_face) (best_similarity : R)
  : pydict :=
  [("matched", PyBool true);
   ("name", PyStr (match name best_match with Some n => n | None => "Unknown" end));
   ("confidence", PyFloat best_similarity);
   ("criminal_id", opt_int (criminal_id best_match));
   ("criminal_code", opt_str (criminal_code best_match))].

(** The loop of [recognize_face] over the gallery, with the two loop
    variables as accumulators. *)
Fixpoint scan_gallery (test_encoding : ndarray) (tolerance : R)
    (known : list known_face) (best_match : option known_face)
    (best_similarity : R) : pyresult (option known_face * R) :=
  match known with
  | [] => Ok (best_match, best_similarity)
  | face :: rest =>
      match encoding face with
      | None => scan_gallery test_encoding tolerance rest best_match best_similarity
      | Some enc =>
          similarity <- calculate_similarity (Some test_encoding) (Some enc) ;;
          if Rgtb similarity best_similarity && Rgeb similarity (tolerance * 100)
          then scan_gallery test_encoding tolerance rest (Some face) similarity
          else scan_gallery test_encoding tolerance rest best_match best_similarity
      end
  end.

(** The part of [recognize_face] after the probe has been encoded. *)
Definition recognize_encoding (test_encoding : option ndarray)
    (known_encodings_dict : list known_face) (tolerance : R)
  : pyresult pydict :=
  match test_encoding with
  | None => Ok no_match
  | Some probe =>
      match known_encodings_dict with
      | [] => Ok no_match
      | _ :: _ =>
          best <- scan_gallery probe tolerance known_encodings_dict None 0%R ;;
          match fst best with
          | Some best_match => Ok (matched_result best_match (snd best))
          | None => Ok no_match
          end
      end
  end.

(** ** FaceRecognitionEngine: extraction *)

(** A single-channel 8-bit image, as rows of pixels. *)
Definition gray_image : Type := list (list Init.Byte.byte).

Definition has_shape (rows cols : nat) (img : gray_image) : bool :=
  Nat.eqb (length img) rows && forallb (fun r => Nat.eqb (length r) cols) img.

(** A row [(x, y, w, h)] of the [int32] array [detectMultiScale] returns. *)
Record rect : Type := { rx : Z; ry : Z; rw : Z; rh : Z }.

(** Python slice bounds: a negative index counts from the end, and both
    ends are clamped to the sequence. *)
Definition slice_index (n : nat) (i : Z) : nat :=
  if (i <? 0)%Z then Z.to_nat (Z.max 0 (i + Z.of_nat n))
  else Nat.min (Z.to_nat i) n.

(** [l[lo:hi]] *)
Definition py_slice {A : Type} (l : list A) (lo hi : Z) : list A :=
  let a := slice_index (length l) lo in
  let b := slice_index (length l) hi in
  firstn (b - a) (skipn a l).

(** [gray[y:y+h, x:x+w]] *)
Definition crop (gray : gray_image) (f : rect) : gray_image :=
  map (fun row => py_slice row (rx f) (int32 (rx f + rw f)))
      (py_slice gray (ry f) (int32 (ry f + rh f))).

(** The sort key [lambda f: f[2] * f[3]], a product of [int32] scalars. *)
Definition area_key (f : rect) : Z := int32 (rw f * rh f).

(** [sorted(faces, key=area_key, reverse=True)]: descending, and stable
    (regions of equal key keep their order). *)
Fixpoint insert_desc (f : rect) (l : list rect) : list rect :=
  match l with
  | [] => [f]
  | g :: l' =>
      if (area_key f <? area_key g)%Z then g :: insert_desc f l'
      else f :: g :: l'
  end.

Definition sorted_desc (faces : list rect) : list rect :=
  fold_right insert_desc [] faces.

(** [cv2.calcHist([img], [0], None, [256], [0, 256])]: one bin per
    intensity. *)
Definition calcHist (img : gray_image) : ndarray :=
  map (fun b => INR (count_occ Nat.eq_dec (map Strings.Byte.to_nat (concat img)) b))
      (seq 0 256).

Definition DBL_EPSILON : R := (/ 2 ^ 52)%R.

(** [cv2.normalize(hist, hist)] with its defaults ([alpha = 1],
    [NORM_L2]), then [.flatten()]. *)
Definition normalize (hist : ndarray) : ndarray :=
  let n := np_linalg_norm hist in
  let scale := if Rgt_dec n DBL_EPSILON then (1 / n)%R else 0%R in
  map (fun x => (x * scale)%R) hist.

(** Length of the descriptor of one detection window
    ([HOGDescriptor::getDescriptorSize]). *)
Definition getDescriptorSize (winSize blockSize blockStride cellSize : nat * nat)
    (nbins : nat) : nat :=
  nbins * (fst blockSize / fst cellSize) * (snd blockSize / snd cellSize)
  * ((fst winSize - fst blockSize) / fst blockStride + 1)
  * ((snd winSize - snd blockSize) / snd blockStride + 1).

(** The descriptor built in [_create_face_encoding]:
    [cv2.HOGDescriptor((100, 100), (20, 20), (10, 10), (10, 10), 9)]. *)
Definition hog_size : nat :=
  getDescriptorSize (100, 100) (20, 20) (10, 10) (10, 10) 9.

Section Core.

Set Default Proof Using "Type".

(** *** The calls into OpenCV *)

(** A decoded BGR image. *)
Variable frame : Type.
(** [cv2.imread(str(path))]: [None] when the file cannot be read. *)
Variable imread : string -> option frame.
(** [cv2.cvtColor(frame, cv2.COLOR_BGR2GRAY)] *)
Variable cvtColor_BGR2GRAY : frame -> gray_image.
(** [self.face_cascade.detectMultiScale(gray, ...)] *)
Variable detectMultiScale : gray_image -> list rect.
(** [cv2.resize(face_roi, (100, 100))] *)
Variable resize : gray_image -> gray_image.
(** [hog.compute(face_image).flatten()] *)
Variable hog_compute : gray_image -> ndarray.

Definition detect_faces_opencv (frame0 : option frame) : list rect :=
  match frame0 with
  | None => []
  | Some fr => detectMultiScale (cvtColor_BGR2GRAY fr)
  end.

Definition _create_face_encoding (face_image : gray_image) : ndarray :=
  let hist := calcHist face_image in
  let hist := normalize hist in
  let hog_features := hog_compute face_image in
  firstn 64 hist ++ firstn 64 hog_features.

(** The region the encoding is computed from: [faces[0]] after the
    optional sort. *)
Definition selected_face (first : rect) (others : list rect) : rect :=
  let faces := first :: others in
  let faces := if Nat.ltb 1 (length faces) then sorted_desc faces else faces in
  hd first faces.

Definition get_face_encoding_from_cv2 (frame0 : option frame)
  : option ndarray :=
  match frame0 with
  | None => None
  | Some fr =>
      match detect_faces_opencv (Some fr) with
      | [] => None
      | first :: others =>
          let f := selected_face first others in
          let gray := cvtColor_BGR2GRAY fr in
          let face_roi := crop gray f in
          let face_roi := resize face_roi in
          Some (_create_face_encoding face_roi)
      end
  end.

Definition encode_face (image_path : string) : option ndarray :=
  match imread image_path with
  | None => None
  | Some image => get_face_encoding_from_cv2 (Some image)
  end.

Definition recognize_face (image_path : string)
    (known_encodings_dict : list known_face) (tolerance : R)
  : pyresult pydict :=
  recognize_encoding (encode_face image_path) known_encodings_dict tolerance.


(** ** BatchProcessor *)

(** *** The calls out of the batch processor *)

(** [validate_image_file(image_path)] of [core/utils.py]: it reads the
    file system and returns [(is_valid, message)]; it catches every
    exception itself. *)
Variable validate_image_file : string -> bool * string.
(** [self.face_engine.search_criminal_database(image_path, self.db)]: the
    list of matches, or an exception. *)
Variable search_criminal_database : string -> pyresult (list pydict).
(** [Path(img_path).name] *)
Variable path_name : string -> string.

(** The dict a worker returns; [None] stands for a missing key. *)
Record worker_result : Type := {
  success : bool;
  matches : option (list pydict);
  error : option string;
  image_path : option string
}.

Definition _process_single_image (img_path : string) : worker_result :=
  let (is_valid, message) := validate_image_file img_path in
  if negb is_valid then
    {| success := false; matches := None;
       error := Some ("Invalid image: " ++ message)%string; image_path := None |}
  else
    match search_criminal_database img_path with
    | Ok found =>
        {| success := true; matches := Some found;
           error := None; image_path := Some img_path |}
    | Raise msg =>
        {| success := false; matches := None;
           error := Some msg; image_path := None |}
    end.

(** An element of [self.results], tagged by its ['success'] key. *)
Inductive result_entry : Type :=
| Succeeded (img_path : string) (found : list pydict) (match_count : nat)
| Failed (img_path : string) (error_msg : string).

Definition entry_path (e : result_entry) : string :=
  match e with
  | Succeeded p _ _ => p
  | Failed p _ => p
  end.

(** The summary dict. *)
Record summary : Type := {
  total : nat;
  processed : nat;
  successful : nat;
  failed : nat;
  total_matches : nat;
  results : list result_entry;
  timestamp : string
}.

(** What [run] does to the outside, in order: tasks handed to the
    executor, the lines it logs, and the Qt signals it emits.  (The lines
    the worker threads log are not part of it.) *)
Inductive event : Type :=
| Submit (img_path : string)
| LogInfo (msg : string)
| LogError (msg : string)
| progress_updated (current total_images : nat) (message : string)
| image_processed (img_path : string) (found : list pydict)
| error_occurred (img_path : string) (error_message : string)
| batch_completed (s : summary).

(** The object: the fields [__init__] sets. *)
Record BatchProcessor : Type := {
  image_paths : list string;
  is_cancelled : bool;
  self_results : list result_entry
}.

Definition BatchProcessor_init (paths : list string) : BatchProcessor :=
  {| image_paths := paths; is_cancelled := false; self_results := [] |}.

(** [cancel()] *)
Definition cancel (self : BatchProcessor) : BatchProcessor * list event :=
  ({| image_paths := image_paths self; is_cancelled := true;
      self_results := self_results self |},
   [LogInfo "Batch processing cancellation requested"]).

(** What the thread pool, the clock and the other threads contribute to
    one run. *)
Record schedule : Type := {
  (** the paths of the futures [as_completed] yields, in that order *)
  yielded : list string;
  (** [as_completed] then raises [TimeoutError] instead of finishing *)
  timed_out : bool;
  (** [cancel()] takes effect before the flag check of this iteration *)
  cancel_before : option nat;
  (** [datetime.now().isoformat()] *)
  now : string
}.

(** The value [self.is_cancelled] has at the flag check of iteration [k]. *)
Definition flag_at (self : BatchProcessor) (sch : schedule) (k : nat) : bool :=
  is_cancelled self ||
  match cancel_before sch with
  | Some c => Nat.leb c k
  | None => false
  end.

Definition str_of_nat (n : nat) : string :=
  NilEmpty.string_of_uint (Nat.to_uint n).

(** The local variables of [run] together with [self.results] and what has
    been emitted so far. *)
Record run_state : Type := {
  st_processed : nat;
  st_successful : nat;
  st_failed : nat;
  st_total_matches : nat;
  st_results : list result_entry;
  st_trace : list event
}.

(** The [except Exception as e] branch inside the loop. *)
Definition on_exception (st : run_state) (img_path error_msg : string)
  : run_state :=
  {| st_processed := st_processed st;
     st_successful := st_successful st;
     st_failed := st_failed st + 1;
     st_total_matches := st_total_matches st;
     st_results := st_results st ++ [Failed img_path error_msg];
     st_trace := st_trace st ++
       [LogError ("Error processing " ++ img_path ++ ": " ++ error_msg);
        error_occurred img_path error_msg] |}.

(** One iteration of the loop body after the flag check; [outcome] is
    [future.result()]. *)
Definition handle_future (total_images : nat) (st : run_state)
    (img_path : string) (outcome : pyresult worker_result) : run_state :=
  let st := {| st_processed := st_processed st + 1;
               st_successful := st_successful st;
               st_failed := st_failed st;
               st_total_matches := st_total_matches st;
               st_results := st_results st;
               st_trace := st_trace st |} in
  match outcome with
  | Raise msg => on_exception st img_path msg
  | Ok result =>
      if success result then
        let st := {| st_processed := st_processed st;
                     st_successful := st_successful st + 1;
                     st_failed := st_failed st;
                     st_total_matches := st_total_matches st;
                     st_results := st_results st;
                     st_trace := st_trace st |} in
        match matches result with
        | None => on_exception st img_path "'matches'"
        | Some found =>
            {| st_processed := st_processed st;
               st_successful := st_successful st;
               st_failed := st_failed st;
               st_total_matches := st_total_matches st + length found;
               st_results := st_results st ++
                 [Succeeded img_path found (length found)];
               st_trace := st_trace st ++
                 [image_processed img_path found;
                  progress_updated (st_processed st) total_images
                    ("Processed: " ++ path_name img_path ++ " - " ++
                     str_of_nat (length found) ++ " matches found")] |}
        end
      else
        let error_msg :=
          match error result with Some e => e | None => "Unknown error" end in
        {| st_processed := st_processed st;
           st_successful := st_successful st;
           st_failed := st_failed st + 1;
           st_total_matches := st_total_matches st;
           st_results := st_results st ++ [Failed img_path error_msg];
           st_trace := st_trace st ++
             [error_occurred img_path error_msg;
              progress_updated (st_processed st) total_images
                ("Failed: " ++ path_name img_path ++ " - " ++ error_msg)] |}
  end.

(** The [for future in as_completed(...)] loop from iteration [k] on.  The
    boolean tells whether the loop was left through [break]. *)
Fixpoint consume (self : BatchProcessor) (sch : schedule) (total_images : nat)
    (pending : list string) (k : nat) (st : run_state) : run_state * bool :=
  match pending with
  | [] => (st, false)
  | img_path :: rest =>
      if flag_at self sch k then
        ({| st_processed := st_processed st;
            st_successful := st_successful st;
            st_failed := st_failed st;
            st_total_matches := st_total_matches st;
            st_results := st_results st;
            st_trace := st_trace st ++ [LogInfo "Batch processing cancelled"] |},
         true)
      else
        consume self sch total_images rest (S k)
          (handle_future total_images st img_path
             (Ok (_process_single_image img_path)))
  end.

(** [run()]: everything the run emits, in order. *)
Definition run (self : BatchProcessor) (sch : schedule) : list event :=
  let total_images := length (image_paths self) in
  let st0 := {| st_processed := 0; st_successful := 0; st_failed := 0;
                st_total_matches := 0; st_results := self_results self;
                st_trace :=
                  LogInfo ("Starting batch processing: " ++
                           str_of_nat total_images ++ " images")
                  :: map Submit (image_paths self) |} in
  let (st, broke) := consume self sch total_images (yielded sch) 0 st0 in
  if negb broke && timed_out sch then
    let msg := (str_of_nat (total_images - length (yielded sch)) ++ " (of " ++
                str_of_nat total_images ++ ") futures unfinished")%string in
    st_trace st ++
      [LogError ("Batch processing error: " ++ msg);
       error_occurred "Batch Process" msg]
  else
    st_trace st ++
      [batch_completed
         {| total := total_images;
            processed := st_processed st;
            successful := st_successful st;
            failed := st_failed st;
            total_matches := st_total_matches st;
            results := st_results st;
            timestamp := now sch |};
       LogInfo ("Batch processing completed: " ++
                str_of_nat (st_successful st) ++ " successful, " ++
                str_of_nat (st_failed st) ++ " failed")].

(** *** Vocabulary of the statements about the gallery scan *)

(** [face] carries an encoding and scores [s] against [probe]. *)
Definition scores (probe : ndarray) (face : known_face) (s : R) : Prop :=
  exists enc, encoding face = Some enc /\
    calculate_similarity (Some probe) (Some enc) = Ok s.

(** No comparison of the scan raises. *)
Definition comparable (probe : ndarray) (known : list known_face) : Prop :=
  forall face enc, In face known -> encoding face = Some enc ->
    exists s, calculate_similarity (Some probe) (Some enc) = Ok s.

(** The default of the [tolerance] parameter. *)
Definition default_tolerance : R := (6 / 10)%R.

(** No entry of the gallery reaches the threshold [tolerance * 100]. *)
Definition none_reaches (probe : ndarray) (known : list known_face)
    (tolerance : R) : Prop :=
  forall face s, In face known -> scores probe face s ->
    (s < tolerance * 100)%R.

(** No entry of the gallery passes the guard of the scan against the
    initial [best_similarity = 0.0]. *)
Definition none_qualifies (probe : ndarray) (known : list known_face)
    (tolerance : R) : Prop :=
  forall face s, In face known -> scores probe face s ->
    ~ (s > 0 /\ s >= tolerance * 100)%R.

(** The encoding computed from region [f] of the frame. *)
Definition encoding_of_region (fr : frame) (f : rect) : ndarray :=
  _create_face_encoding (resize (crop (cvtColor_BGR2GRAY fr) f)).

(** *** Vocabulary of the statements about a run *)

(** Whether the worker reports success for a path. *)
Definition succeeds (img_path : string) : bool :=
  success (_process_single_image img_path).

(** The entry of [self.results] a handled path ends up as. *)
Definition item_entry (img_path : string) : result_entry :=
  match validate_image_file img_path with
  | (false, message) => Failed img_path ("Invalid image: " ++ message)
  | (true, _) =>
      match search_criminal_database img_path with
      | Ok found => Succeeded img_path found (length found)
      | Raise msg => Failed img_path msg
      end
  end.

(** The number of futures the loop handles from iteration [k] on before it
    sees the flag set or runs out of futures. *)
Fixpoint handled (self : BatchProcessor) (sch : schedule)
    (pending : list string) (k : nat) : nat :=
  match pending with
  | [] => 0
  | _ :: rest =>
      if flag_at self sch k then 0 else S (handled self sch rest (S k))
  end.

(** The events one iteration of the loop can emit. *)
Definition is_item_event (e : event) : bool :=
  match e with
  | Submit _ | batch_completed _ => false
  | _ => true
  end.

(** The run emits the completion signal. *)
Definition emits_completed (trace : list event) : Prop :=
  exists s, In (batch_completed s) trace.

(** The loop was left because the flag was seen set. *)
Definition saw_cancel (trace : list event) : Prop :=
  In (LogInfo "Batch processing cancelled") trace.

(** ** Worked inputs *)

(** A black 100x100 frame in which the detector reports two regions, of
    areas 500 and 2000; one file cannot be read. *)
Definition ex_black : gray_image := repeat (repeat Init.Byte.x00 100) 100.
Definition ex_small : rect := {| rx := 10; ry := 10; rw := 20; rh := 25 |}.
Definition ex_big : rect := {| rx := 40; ry := 20; rw := 40; rh := 50 |}.
Definition ex_imread (p : string) : option unit :=
  if String.eqb p "missing.jpg" then None else Some tt.
Definition ex_gray (_ : unit) : gray_image := ex_black.
Definition ex_detect (_ : gray_image) : list rect := [ex_small; ex_big].
Definition ex_resize (_ : gray_image) : gray_image := ex_black.
Definition ex_hog (_ : gray_image) : ndarray := repeat 0%R 2916.

(** The encoding of the black crop: all 10000 pixels fall into bin 0. *)
Definition ex_probe : ndarray := 1%R :: repeat 0%R 127.

(** A gallery entry with the probe's own encoding, and one far away. *)
Definition ex_twin : known_face :=
  {| encoding := Some ex_probe; name := Some "John Doe";
     criminal_id := Some 7%Z; criminal_code := Some "CR-007" |}.
Definition ex_far : known_face :=
  {| encoding := Some (13%R :: repeat 0%R 127); name := Some "Jane Roe";
     criminal_id := Some 8%Z; criminal_code := None |}.

(** Five images, the third of which is corrupt; the first one has a match
    in the database.  The second future completes before the first. *)
Definition ex_paths : list string :=
  ["img1.jpg"; "img2.jpg"; "img3.jpg"; "img4.jpg"; "img5.jpg"].
Definition ex_validate (p : string) : bool * string :=
  if String.eqb p "img3.jpg" then (false, "Invalid or corrupted image file")
  else (true, "Valid image").
Definition ex_hit : pydict :=
  [("criminal_id", PyInt 7); ("similarity", PyFloat 91)].
Definition ex_search (p : string) : pyresult (list pydict) :=
  if String.eqb p "img1.jpg" then Ok [ex_hit] else Ok [].
Definition ex_path_name (p : string) : string := p.
Definition ex_completion : list string :=
  ["img2.jpg"; "img1.jpg"; "img3.jpg"; "img4.jpg"; "img5.jpg"].
Definition ex_sched_full : schedule :=
  {| yielded := ex_completion; timed_out := false; cancel_before := None;
     now := "2024-05-01T12:00:00" |}.
(** The same run with [cancel()] landing after two futures were handled. *)
Definition ex_sched_cancel : schedule :=
  {| yielded := ex_completion; timed_out := false; cancel_before := Some 2;
     now := "2024-05-01T12:00:00" |}.

(** All images valid, but the search of the third raises an exception whose
    text is empty (as [raise RuntimeError()] or a failed [assert] does). *)
Definition ex_validate_ok (p : string) : bool * string := (true, "Valid image").
Definition ex_search_raising (p : string) : pyresult (list pydict) :=
  if String.eqb p "img3.jpg" then Raise "" else Ok [].

Definition ex_summary_full : summary :=
  {| total := 5; processed := 5; successful := 4; failed := 1;
     total_matches := 1;
     results :=
       [Succeeded "img2.jpg" [] 0; Succeeded "img1.jpg" [ex_hit] 1;
        Failed "img3.jpg" "Invalid image: Invalid or corrupted image file";
        Succeeded "img4.jpg" [] 0; Succeeded "img5.jpg" [] 0];
     timestamp := "2024-05-01T12:00:00" |}.

Definition ex_summary_cancel : summary :=
  {| total := 5; processed := 2; successful := 2; failed := 0;
     total_matches := 1;
     results := [Succeeded "img2.jpg" [] 0; Succeeded "img1.jpg" [ex_hit] 1];
     timestamp := "2024-05-01T12:00:00" |}.

(** ** FaceRecognitionEngine: the remaining methods *)

Definition Rltb (a b : R) : bool := if Rlt_dec a b then true else false.
Definition Rleb (a b : R) : bool := if Rle_dec a b then true else false.


(** A face location [(top, right, bottom, left)]. *)
Record location : Type := { top : Z; right : Z; bottom : Z; left : Z }.

(** [extract_faces(image_path)] *)
Definition extract_faces (image_path : string) : list location :=
  match imread image_path with
  | None => []
  | Some image =>
      map (fun f => {| top := ry f; right := int32 (rx f + rw f);
                       bottom := int32 (ry f + rh f); left := rx f |})
          (detect_faces_opencv (Some image))
  end.

(** An element of the list [batch_recognize] returns. *)
Record recognized : Type := { image : string; match_ : pydict }.

(** The loop of [batch_recognize], with [results] as accumulator. *)
Fixpoint batch_recognize_loop (image_paths : list string)
    (known_encodings_dict : list known_face) (tolerance : R)
    (results : list recognized) : pyresult (list recognized) :=
  match image_paths with
  | [] => Ok results
  | image_path :: rest =>
      result <- recognize_face image_path known_encodings_dict tolerance ;;
      batch_recognize_loop rest known_encodings_dict tolerance
        (results ++ [{| image := image_path; match_ := result |}])
  end.

Definition batch_recognize (image_paths : list string)
    (known_encodings_dict : list known_face) (tolerance : R)
  : pyresult (list recognized) :=
  batch_recognize_loop image_paths known_encodings_dict tolerance [].

(** [frame.shape[0]] and [frame.shape[1]] *)
Variable frame_shape : frame -> nat * nat.
(** [self.eye_cascade.detectMultiScale(face_roi)] *)
Variable eye_detectMultiScale : gray_image -> list rect.
(** [cv2.Laplacian(face_roi, cv2.CV_64F).var()] *)
Variable laplacian_var : gray_image -> R.

(** [get_face_quality_score(frame)].  A [None] frame has no faces and
    returns before its shape is read.  A frame of zero size divides by
    zero: the quotient is [inf] or [nan], which lies in neither interval,
    as the 0 the real quotient gives. *)
Definition get_face_quality_score (frame0 : option frame) : nat :=
  match frame0 with
  | None => 0
  | Some fr =>
      match detect_faces_opencv (Some fr) with
      | [] => 0
      | f :: _ =>
          let face_size := area_key f in
          let frame_size := fst (frame_shape fr) * snd (frame_shape fr) in
          let size_ratio := (IZR face_size / INR frame_size)%R in
          let gray := cvtColor_BGR2GRAY fr in
          let face_roi := crop gray f in
          let eyes := eye_detectMultiScale face_roi in
          let score := 0 in
          let score :=
            if Rleb (5 / 100) size_ratio && Rleb size_ratio (30 / 100)
            then score + 40
            else if Rleb (3 / 100) size_ratio && Rleb size_ratio (40 / 100)
            then score + 20
            else score in
          let score :=
            if Nat.leb 2 (length eyes) then score + 40
            else if Nat.eqb (length eyes) 1 then score + 20
            else score in
          let laplacian := laplacian_var face_roi in
          let score :=
            if Rgtb laplacian 100 then score + 20
            else if Rgtb laplacian 50 then score + 10
            else score in
          Nat.min score 100
      end
  end.

(** ** The image validator the batch processor calls *)

(** What the file system and PIL answer about one path: [path.exists()],
    [path.suffix], [path.stat().st_size], and whether [Image.open] followed
    by [img.verify()] goes through. *)
Record file_facts : Type := {
  path_exists : pyresult bool;
  path_suffix : string;
  st_size : pyresult Z;
  pil_verifies : bool
}.

Variable file_system : string -> file_facts.

Definition ALLOWED_IMAGE_EXTENSIONS : list string :=
  [".jpg"; ".jpeg"; ".png"; ".bmp"].
Definition MAX_IMAGE_SIZE : Z := (10 * 1024 * 1024)%Z.

Definition lower_ascii (c : ascii) : ascii :=
  let n := nat_of_ascii c in
  if Nat.leb 65 n && Nat.leb n 90 then ascii_of_nat (n + 32) else c.

(** [s.lower()], on the ASCII letters. *)
Fixpoint lower (s : string) : string :=
  match s with
  | EmptyString => EmptyString
  | String c s' => String (lower_ascii c) (lower s')
  end.

(** [validate_image_file(image_path)] of [core/utils.py].  The outer
    [except] turns an exception of [exists()] or [stat()] into
    [(False, str(e))]. *)
Definition utils_validate_image_file (image_path : string) : bool * string :=
  let facts := file_system image_path in
  match path_exists facts with
  | Raise msg => (false, msg)
  | Ok false => (false, "File does not exist")
  | Ok true =>
      if negb (existsb (String.eqb (lower (path_suffix facts)))
                 ALLOWED_IMAGE_EXTENSIONS)
      then (false, ("Invalid file type. Allowed: " ++
                    String.concat ", " ALLOWED_IMAGE_EXTENSIONS)%string)
      else
        match st_size facts with
        | Raise msg => (false, msg)
        | Ok file_size =>
            if (MAX_IMAGE_SIZE <? file_size)%Z
            then (false, "File too large. Maximum size: 10.0MB")
            else if (file_size =? 0)%Z then (false, "File is empty")
            else if pil_verifies facts then (true, "Valid image")
            else (false, "Invalid or corrupted image file")
        end
  end.

(** ** RecognitionWorker of [gui/tabs/recognition_tab.py] *)

(** [self.db.get_mugshot_encodings()] *)
Variable get_mugshot_encodings : pyresult (list known_face).
(** A row of the criminals table, and [row[i]]. *)
Variable criminal : Type.
Variable criminal_item : criminal -> nat -> pyval.
(** [self.db.get_criminal_by_id(id)]: the row, or [None]. *)
Variable get_criminal_by_id : Z -> pyresult (option criminal).

(** An element of the list the worker hands to [finished]. *)
Record ranked_match : Type := {
  m_criminal_id : Z;
  m_name : string;
  m_criminal_code : string;
  m_similarity : R;
  m_charges : pyval;
  m_case_number : pyval
}.

(** [d[k]] on a key that may be missing. *)
Definition subscript {A : Type} (k : string) (o : option A) : pyresult A :=
  match o with
  | Some a => Ok a
  | None => Raise ("'" ++ k ++ "'")
  end.

(** The loop over [known_encodings], with [matches] as accumulator. *)
Fixpoint find_matches (suspect_encoding : ndarray)
    (known_encodings : list known_face) (matches0 : list ranked_match)
  : pyresult (list ranked_match) :=
  match known_encodings with
  | [] => Ok matches0
  | known :: rest =>
      similarity <-
        calculate_similarity (Some suspect_encoding) (encoding known) ;;
      if Rgeb similarity 60 then
        cid <- subscript "criminal_id" (criminal_id known) ;;
        row <- get_criminal_by_id cid ;;
        match row with
        | Some c =>
            cid' <- subscript "criminal_id" (criminal_id known) ;;
            nm <- subscript "name" (name known) ;;
            code <- subscript "criminal_code" (criminal_code known) ;;
            find_matches suspect_encoding rest
              (matches0 ++
               [{| m_criminal_id := cid'; m_name := nm;
                   m_criminal_code := code; m_similarity := similarity;
                   m_charges := criminal_item c 6;
                   m_case_number := criminal_item c 9 |}])
        | None => find_matches suspect_encoding rest matches0
        end
      else find_matches suspect_encoding rest matches0
  end.

(** [matches.sort(key=lambda x: x['similarity'], reverse=True)]:
    descending and stable. *)
Fixpoint insert_by_similarity (m : ranked_match) (l : list ranked_match)
  : list ranked_match :=
  match l with
  | [] => [m]
  | g :: l' =>
      if Rltb (m_similarity m) (m_similarity g)
      then g :: insert_by_similarity m l'
      else m :: g :: l'
  end.

Definition sort_by_similarity (l : list ranked_match) : list ranked_match :=
  fold_right insert_by_similarity [] l.

(** What the worker emits and logs. *)
Inductive recognition_signal : Type :=
| rec_progress (msg : string)
| rec_finished (found : list ranked_match)
| rec_log_error (msg : string).

(** The [except Exception as e] of [RecognitionWorker.run]. *)
Definition recognition_failed (msg : string) : list recognition_signal :=
  [rec_log_error ("Recognition error: " ++ msg);
   rec_progress ("Error: " ++ msg); rec_finished []].

(** [RecognitionWorker.run()] for [self.image_path]. *)
Definition RecognitionWorker_run (image_path : string)
  : list recognition_signal :=
  rec_progress "Extracting face encoding..." ::
  match encode_face image_path with
  | None => [rec_progress "No face detected in image"; rec_finished []]
  | Some suspect_encoding =>
      rec_progress "Loading criminal database..." ::
      match get_mugshot_encodings with
      | Raise msg => recognition_failed msg
      | Ok [] => [rec_progress "No criminals in database"; rec_finished []]
      | Ok (k0 :: ks) =>
          let known_encodings := k0 :: ks in
          rec_progress ("Comparing against " ++
                        str_of_nat (length known_encodings) ++ " mugshots...")
          :: match find_matches suspect_encoding known_encodings [] with
             | Raise msg => recognition_failed msg
             | Ok found =>
                 let found := sort_by_similarity found in
                 [rec_progress ("Found " ++ str_of_nat (length found) ++
                                " matches");
                  rec_finished found]
             end
      end
  end.

(** ** BatchProcessingWorker of [gui/tabs/batch_tab.py] *)

(** [os.path.basename(image_path)] *)
Variable basename : string -> string.
(** [int((idx / total) * 100)], a float computation. *)
Variable percent : nat -> nat -> Z.

(** An element of the worker's [self.results]. *)
Record batch_row : Type := {
  b_image : string;
  b_name : pyval;
  b_confidence : pyval;
  b_matched : pyval;
  b_path : string
}.

(** [d.get(k, default)] *)
Definition dict_get_default (d : pydict) (k : string) (default : pyval)
  : pyval :=
  match dict_get d k with
  | Some v => v
  | None => default
  end.

Inductive batch_signal : Type :=
| bw_progress (value : Z) (msg : string)
| bw_finished (rows : list batch_row)
| bw_log_error (msg : string).

(** The [for idx, image_path in enumerate(self.image_paths)] loop: the rows
    appended and the signals emitted from index [idx] on. *)
Fixpoint batch_worker_loop (total_images : nat)
    (known_encodings : list known_face) (image_paths : list string)
    (idx : nat) : list batch_row * list batch_signal :=
  match image_paths with
  | [] => ([], [])
  | image_path :: rest =>
      let filename := basename image_path in
      let emitted :=
        bw_progress (percent idx total_images) ("Processing: " ++ filename) in
      let (rows, signals) :=
        batch_worker_loop total_images known_encodings rest (S idx) in
      match recognize_face image_path known_encodings (6 / 10) with
      | Ok result =>
          ({| b_image := filename;
              b_name := dict_get_default result "name" (PyStr "Unknown");
              b_confidence := dict_get_default result "confidence" (PyFloat 0);
              b_matched := dict_get_default result "matched" (PyBool false);
              b_path := image_path |} :: rows,
           emitted :: signals)
      | Raise msg =>
          ({| b_image := basename image_path;
              b_name := PyStr "Error";
              b_confidence := PyFloat 0;
              b_matched := PyBool false;
              b_path := image_path |} :: rows,
           emitted ::
           bw_log_error ("Batch processing error for " ++ image_path ++ ": " ++
                         msg) :: signals)
      end
  end.

(** [BatchProcessingWorker.run()] on a fresh worker; an exception of
    [get_mugshot_encodings] is not caught. *)
Definition BatchProcessingWorker_run (image_paths : list string)
  : pyresult (list batch_signal) :=
  let total_images := length image_paths in
  known_encodings <- get_mugshot_encodings ;;
  let (rows, signals) :=
    batch_worker_loop total_images known_encodings image_paths 0 in
  Ok (signals ++
      [bw_progress 100 "Batch processing complete"; bw_finished rows]).

(** *** Vocabulary of the statements about the trace of a batch run *)

(** The signals one handled future makes [run] emit, [current] being the
    value of [processed] after the increment. *)
Definition item_events (total_images current : nat) (img_path : string)
  : list event :=
  match item_entry img_path with
  | Succeeded _ found _ =>
      [image_processed img_path found;
       progress_updated current total_images
         ("Processed: " ++ path_name img_path ++ " - " ++
          str_of_nat (length found) ++ " matches found")]
  | Failed _ error_msg =>
      [error_occurred img_path error_msg;
       progress_updated current total_images
         ("Failed: " ++ path_name img_path ++ " - " ++ error_msg)]
  end.

Fixpoint loop_events (total_images count : nat) (done : list string)
  : list event :=
  match done with
  | [] => []
  | img_path :: rest =>
      item_events total_images (S count) img_path ++
      loop_events total_images (S count) rest
  end.

(** The [(current, total)] pairs of the progress notifications of a
    trace, in order. *)
Fixpoint progress_of (trace : list event) : list (nat * nat) :=
  match trace with
  | [] => []
  | progress_updated current total_images _ :: rest =>
      (current, total_images) :: progress_of rest
  | _ :: rest => progress_of rest
  end.

Definition entry_match_count (e : result_entry) : nat :=
  match e with
  | Succeeded _ _ n => n
  | Failed _ _ => 0
  end.

(** The closing lines of a run: the time-out report, or the summary and
    the completion line. *)
Definition run_ending (self : BatchProcessor) (sch : schedule) : list event :=
  let total_images := length (image_paths self) in
  let n := handled self sch (yielded sch) 0 in
  let done := firstn n (yielded sch) in
  if negb (Nat.ltb n (length (yielded sch))) && timed_out sch then
    let msg := (str_of_nat (total_images - length (yielded sch)) ++ " (of " ++
                str_of_nat total_images ++ ") futures unfinished")%string in
    [LogError ("Batch processing error: " ++ msg);
     error_occurred "Batch Process" msg]
  else
    [batch_completed
       {| total := total_images;
          processed := n;
          successful := length (filter succeeds done);
          failed := length (filter (fun p => negb (succeeds p)) done);
          total_matches :=
            list_sum (map entry_match_count (map item_entry done));
          results := self_results self ++ map item_entry done;
          timestamp := now sch |};
     LogInfo ("Batch processing completed: " ++
              str_of_nat (length (filter succeeds done)) ++ " successful, " ++
              str_of_nat (length (filter (fun p => negb (succeeds p)) done)) ++
              " failed")].

(** The signals of the handled futures are of three kinds. *)
Definition is_item_signal (e : event) : bool :=
  match e with
  | progress_updated _ _ _ | image_processed _ _ | error_occurred _ _ => true
  | _ => false
  end.

(** The best match of the single-best scan and the accumulated ranked
    matches name the same entry. *)
Definition agrees (bm : option known_face) (bs : R)
    (acc : list ranked_match) : Prop :=
  match bm with
  | None => acc = [] /\ bs = 0%R
  | Some f =>
      exists m,
        hd_error (sort_by_similarity acc) = Some m /\
        m_similarity m = bs /\
        criminal_id f = Some (m_criminal_id m) /\
        name f = Some (m_name m) /\
        criminal_code f = Some (m_criminal_code m)
  end.

(** What a row of the batch tab's worker holds for its path. *)
Definition row_reports (known : list known_face) (row : batch_row) : Prop :=
  match recognize_face (b_path row) known (6 / 10) with
  | Ok r =>
      b_name row = dict_get_default r "name" (PyStr "Unknown") /\
      b_confidence row = dict_get_default r "confidence" (PyFloat 0) /\
      b_matched row = dict_get_default r "matched" (PyBool false)
  | Raise _ =>
      b_name row = PyStr "Error" /\ b_confidence row = PyFloat 0 /\
      b_matched row = PyBool false
  end.

(** ** BatchResultsManager *)

(** [self.db.add_suspect(image_path=..., face_encoding=None,
    description=...)] and [self.db.save_match(suspect_id=...,
    criminal_id=..., similarity_score=..., notes=...)]: the new row id, or
    an exception.  The first argument is the number of rows written so far
    in this call, through which the outcome may depend on what was
    written before. *)
Variable add_suspect : nat -> string -> string -> pyresult Z.
Variable save_match : nat -> Z -> pyval -> pyval -> string -> pyresult Z.

(** A row written to the database. *)
Inductive db_write : Type :=
| SuspectRow (img_path description : string) (suspect_id : Z)
| MatchRow (suspect_id : Z) (criminal_id0 similarity_score : pyval)
           (notes : string).

(** The inner loop [for match in result['matches']]. *)
Fixpoint save_matches (suspect_id : Z) (user_id : nat) (found : list pydict)
    (writes : list db_write) : list db_write * pyresult unit :=
  match found with
  | [] => (writes, Ok tt)
  | m :: rest =>
      match subscript "criminal_id" (dict_get m "criminal_id") with
      | Raise msg => (writes, Raise msg)
      | Ok cid =>
          match subscript "similarity" (dict_get m "similarity") with
          | Raise msg => (writes, Raise msg)
          | Ok sim =>
              let notes :=
                ("Batch processing by user " ++ str_of_nat user_id)%string in
              match save_match (length writes) suspect_id cid sim notes with
              | Raise msg => (writes, Raise msg)
              | Ok _ =>
                  save_matches suspect_id user_id rest
                    (writes ++ [MatchRow suspect_id cid sim notes])
              end
          end
      end
  end.

(** The outer loop [for result in results['results']]. *)
Fixpoint save_results (stamp : string) (user_id : nat)
    (entries : list result_entry) (writes : list db_write)
  : list db_write * pyresult unit :=
  match entries with
  | [] => (writes, Ok tt)
  | Succeeded img_path (m :: ms) _ :: rest =>
      let description := ("Batch processed: " ++ stamp)%string in
      match add_suspect (length writes) img_path description with
      | Raise msg => (writes, Raise msg)
      | Ok suspect_id =>
          match save_matches suspect_id user_id (m :: ms)
                  (writes ++ [SuspectRow img_path description suspect_id]) with
          | (writes', Ok _) => save_results stamp user_id rest writes'
          | (writes', Raise msg) => (writes', Raise msg)
          end
      end
  | _ :: rest => save_results stamp user_id rest writes
  end.

(** [save_batch_results(results, user_id)]: the rows written and the line
    logged. *)
Definition save_batch_results (s : summary) (user_id : nat)
  : list db_write * event :=
  match save_results (timestamp s) user_id (results s) [] with
  | (writes, Ok _) =>
      (writes,
       LogInfo ("Batch results saved: " ++ str_of_nat (successful s) ++
                " suspects, " ++ str_of_nat (total_matches s) ++ " matches"))
  | (writes, Raise msg) =>
      (writes, LogError ("Error saving batch results: " ++ msg))
  end.

Definition is_suspect_row (w : db_write) : bool :=
  match w with SuspectRow _ _ _ => true | MatchRow _ _ _ _ => false end.

Definition is_match_row (w : db_write) : bool :=
  match w with MatchRow _ _ _ _ => true | SuspectRow _ _ _ => false end.

(** A successful entry with at least one match. *)
Definition has_matches (e : result_entry) : bool :=
  match e with
  | Succeeded _ (_ :: _) _ => true
  | _ => false
  end.

Definition entry_matches (e : result_entry) : list pydict :=
  match e with
  | Succeeded _ found _ => found
  | Failed _ _ => []
  end.

(** A run whose pool wait times out after two futures. *)
Definition ex_sched_timeout : schedule :=
  {| yielded := ["img2.jpg"; "img1.jpg"]; timed_out := true;
     cancel_before := None; now := "2024-05-01T12:00:00" |}.

(** The detector reporting the two regions in the other order. *)
Definition ex_detect_rev (_ : gray_image) : list rect := [ex_big; ex_small].

(** A database in which every criminal record is found. *)
Definition ex_get_criminal (cid : Z) : pyresult (option unit) := Ok (Some tt).
Definition ex_criminal_item (_ : unit) (i : nat) : pyval :=
  if Nat.eqb i 6 then PyStr "Robbery" else PyStr "CASE-1".
Definition ex_twin_match : ranked_match :=
  {| m_criminal_id := 7; m_name := "John Doe"; m_criminal_code := "CR-007";
     m_similarity := 100; m_charges := PyStr "Robbery";
     m_case_number := PyStr "CASE-1" |}.
Definition ex_add_suspect (n : nat) (img_path description : string)
  : pyresult Z := Ok (Z.of_nat n + 1)%Z.
Definition ex_save_match (n : nat) (suspect_id : Z) (cid sim : pyval)
    (notes : string) : pyresult Z := Ok (Z.of_nat n + 1)%Z.

(** A file system in which every file exists, is 2 KB large and has the
    suffix [.JPG], and the third one fails PIL's verification. *)
Definition ex_file_system (p : string) : file_facts :=
  {| path_exists := Ok true; path_suffix := ".JPG"; st_size := Ok 2048%Z;
     pil_verifies := negb (String.eqb p "img3.jpg") |}.

(** * Properties *)

(** ** Scoring *)

Lemma py_max0_nonneg (x : R) : (0 <= py_max0 x)%R.
Proof. unfold py_max0. destruct (Rgt_dec x 0); lra. Qed.

Lemma Rgtb_true (a b : R) : Rgtb a b = true <-> (a > b)%R.
Proof. unfold Rgtb. destruct (Rgt_dec a b); split; intros; try easy; lra. Qed.

Lemma Rgeb_true (a b : R) : Rgeb a b = true <-> (a >= b)%R.
Proof. unfold Rgeb. destruct (Rge_dec a b); split; intros; try easy; lra. Qed.

Lemma np_sub_raises (a b : ndarray) :
  length a <> length b -> length a <> 1 -> length b <> 1 ->
  np_sub a b = Raise "operands could not be broadcast together".
Proof.
  intros Hab Ha Hb. unfold np_sub.
  apply Nat.eqb_neq in Hab, Ha, Hb. now rewrite Hab, Ha, Hb.
Qed.

Lemma np_sub_broadcast (a b : ndarray) :
  length a = 1 \/ length b = 1 -> exists d, np_sub a b = Ok d.
Proof.
  intros H. unfold np_sub.
  destruct (Nat.eqb (length a) (length b)); [eauto|].
  destruct H as [H|H]; rewrite H; simpl; [eauto|].
  destruct (Nat.eqb (length a) 1); eauto.
Qed.

(** Whatever it is given, [calculate_similarity] never returns a negative
    score. *)
Lemma calculate_similarity_nonneg (e1 e2 : option ndarray) (s : R) :
  calculate_similarity e1 e2 = Ok s -> (0 <= s)%R.
Proof.
  unfold calculate_similarity.
  destruct e1 as [a|], e2 as [b|]; try (intros [= <-]; lra).
  destruct (np_sub a b) as [d|msg]; simpl; [|discriminate].
  destruct (Nat.eqb (length a) 0); intros [= <-]; [lra|apply py_max0_nonneg].
Qed.

(** C3, as amended: a [None] on either side gives [0.0] and no exception;
    two arrays of different lengths are not guarded against: the
    subtraction raises [ValueError] when neither length is 1, and
    broadcasts the shorter array and returns a score when one of them
    is. *)
Theorem calculate_similarity_none_or_mismatch (e1 e2 : option ndarray) :
  (e1 = None \/ e2 = None -> calculate_similarity e1 e2 = Ok 0%R) /\
  (forall a b, e1 = Some a -> e2 = Some b ->
     length a <> length b -> length a <> 1 -> length b <> 1 ->
     calculate_similarity e1 e2 =
       Raise "operands could not be broadcast together") /\
  (forall a b, e1 = Some a -> e2 = Some b ->
     length a = 1 \/ length b = 1 ->
     exists s, calculate_similarity e1 e2 = Ok s /\ (0 <= s)%R).
Proof.
  split; [|split].
  - intros [-> | ->]; [reflexivity|]. now destruct e1.
  - intros a b -> -> Hab Ha Hb. unfold calculate_similarity.
    now rewrite np_sub_raises.
  - intros a b -> -> H.
    destruct (np_sub_broadcast a b H) as [d Hd].
    unfold calculate_similarity. rewrite Hd. simpl.
    destruct (Nat.eqb (length a) 0).
    + exists 0%R. split; [reflexivity|lra].
    + eexists. split; [reflexivity|apply py_max0_nonneg].
Qed.

(** ** Gallery search *)

(** C10: the dict returned when no face can be extracted from the probe is
    the very dict returned for an empty gallery. *)
Theorem recognize_face_same_no_match (image_path : string)
    (known : list known_face) (tolerance : R) :
  (encode_face image_path = None ->
   recognize_face image_path known tolerance =
     Ok [("matched", PyBool false); ("name", PyStr "Unknown");
         ("confidence", PyFloat 0); ("criminal_id", PyNone)]) /\
  recognize_face image_path [] tolerance =
    Ok [("matched", PyBool false); ("name", PyStr "Unknown");
        ("confidence", PyFloat 0); ("criminal_id", PyNone)].
Proof.
  unfold recognize_face, recognize_encoding. split.
  - now intros ->.
  - now destruct (encode_face image_path).
Qed.

Lemma scores_functional (probe : ndarray) (face : known_face) (s s' : R) :
  scores probe face s -> scores probe face s' -> s = s'.
Proof.
  intros (enc & He & Hs) (enc' & He' & Hs').
  rewrite He in He'. injection He' as <-. congruence.
Qed.

(** The loop invariant of the scan, read off at the end: either nothing
    replaced the incoming best, and then no entry passed the guard against
    it; or the final best is an entry of the gallery that passed the guard,
    beats every earlier entry strictly and every later entry weakly. *)
Lemma scan_gallery_spec (probe : ndarray) (tolerance : R)
    (known : list known_face) :
  forall bm bs bm' bs',
    scan_gallery probe tolerance known bm bs = Ok (bm', bs') ->
    (bm' = bm /\ bs' = bs /\
     forall face s, In face known -> scores probe face s ->
       ~ (s > bs /\ s >= tolerance * 100)%R)
    \/
    (exists i face,
       nth_error known i = Some face /\ bm' = Some face /\
       scores probe face bs' /\ (bs' > bs)%R /\ (bs' >= tolerance * 100)%R /\
       (forall j face' s', j < i -> nth_error known j = Some face' ->
          scores probe face' s' -> (s' < bs')%R) /\
       (forall j face' s', i < j -> nth_error known j = Some face' ->
          scores probe face' s' -> (s' <= bs')%R)).
Proof.
  induction known as [|face rest IH]; intros bm bs bm' bs' Hscan.
  - injection Hscan as <- <-. left. repeat split. intros ? ? [].
  - cbn [scan_gallery] in Hscan.
    destruct (encoding face) as [enc|] eqn:Henc.
    + destruct (calculate_similarity (Some probe) (Some enc)) as [s|msg] eqn:Hs;
        cbn [bind] in Hscan; [|discriminate].
      assert (Hface : scores probe face s) by (exists enc; auto).
      destruct (Rgtb s bs && Rgeb s (tolerance * 100)) eqn:Hguard.
      * apply andb_true_iff in Hguard as [Hgt Hge].
        apply Rgtb_true in Hgt. apply Rgeb_true in Hge.
        apply IH in Hscan as [(-> & -> & Hnone) | (i & f & Hi & -> & Hf & Hgt' & Hge' & Hlo & Hhi)].
        -- right. exists 0, face. repeat split; auto.
           ++ intros j ? ? Hj. lia.
           ++ intros [|j] face' s' Hj Hnth Hs'; [lia|]. cbn in Hnth.
              apply nth_error_In in Hnth.
              specialize (Hnone _ _ Hnth Hs').
              destruct (Rle_dec s' s); [assumption|]. exfalso. apply Hnone. lra.
        -- right. exists (S i), f. repeat split; auto; try lra.
           ++ intros [|j] face' s' Hj Hnth Hs'; cbn in Hnth.
              ** injection Hnth as <-.
                 rewrite (scores_functional _ _ _ _ Hs' Hface). lra.
              ** apply (Hlo j face'); auto. lia.
           ++ intros [|j] face' s' Hj Hnth Hs'; [lia|]. cbn in Hnth.
              apply (Hhi j face'); auto. lia.
      * assert (Hno : ~ (s > bs /\ s >= tolerance * 100)%R).
        { intros [Hgt Hge]. apply Rgtb_true in Hgt. apply Rgeb_true in Hge.
          rewrite Hgt, Hge in Hguard. discriminate. }
        apply IH in Hscan as [(-> & -> & Hnone) | (i & f & Hi & -> & Hf & Hgt' & Hge' & Hlo & Hhi)].
        -- left. repeat split. intros face' s' [<-|Hin] Hs'.
           ++ now rewrite (scores_functional _ _ _ _ Hs' Hface).
           ++ now apply (Hnone face').
        -- right. exists (S i), f. repeat split; auto.
           ++ intros [|j] face' s' Hj Hnth Hs'; cbn in Hnth.
              ** injection Hnth as <-.
                 rewrite (scores_functional _ _ _ _ Hs' Hface).
                 destruct (Rlt_dec s bs'); [assumption|]. exfalso. apply Hno. lra.
              ** apply (Hlo j face'); auto. lia.
           ++ intros [|j] face' s' Hj Hnth Hs'; [lia|]. cbn in Hnth.
              apply (Hhi j face'); auto. lia.
    + apply IH in Hscan as [(-> & -> & Hnone) | (i & f & Hi & -> & Hf & Hgt' & Hge' & Hlo & Hhi)].
      * left. repeat split. intros face' s' [<-|Hin] Hs'.
        -- destruct Hs' as (enc & He & _). congruence.
        -- now apply (Hnone face').
      * right. exists (S i), f. repeat split; auto.
        -- intros [|j] face' s' Hj Hnth Hs'; cbn in Hnth.
           ++ injection Hnth as <-. destruct Hs' as (enc & He & _). congruence.
           ++ apply (Hlo j face'); auto. lia.
        -- intros [|j] face' s' Hj Hnth Hs'; [lia|]. cbn in Hnth.
           apply (Hhi j face'); auto. lia.
Qed.

(** The scan finishes exactly when every comparison does. *)
Lemma scan_gallery_returns (probe : ndarray) (tolerance : R)
    (known : list known_face) :
  forall bm bs,
    comparable probe known <->
    exists out, scan_gallery probe tolerance known bm bs = Ok out.
Proof.
  induction known as [|face rest IH]; intros bm bs.
  - split; [intros _; cbn; eauto | intros _ ? ? []].
  - split.
    + intros Hc. cbn [scan_gallery].
      assert (Hrest : comparable probe rest)
        by (intros f e Hin He; apply (Hc f e); [now right|assumption]).
      destruct (encoding face) as [enc|] eqn:Henc.
      * destruct (Hc face enc (or_introl eq_refl) Henc) as [s ->]. cbn [bind].
        destruct (Rgtb s bs && Rgeb s (tolerance * 100)); now apply IH.
      * now apply IH.
    + intros [out Hout]. cbn [scan_gallery] in Hout.
      destruct (encoding face) as [enc|] eqn:Henc.
      * destruct (calculate_similarity (Some probe) (Some enc)) as [s|msg] eqn:Hs;
          cbn [bind] in Hout; [|discriminate].
        assert (Hrest : comparable probe rest).
        { destruct (Rgtb s bs && Rgeb s (tolerance * 100));
            eapply IH; eauto. }
        intros f e [<-|Hin] He; [|now apply (Hrest f)].
        rewrite Henc in He. injection He as <-. eauto.
      * assert (Hrest : comparable probe rest) by (eapply IH; eauto).
        intros f e [<-|Hin] He; [congruence|now apply (Hrest f)].
Qed.

(** C1: a matched result is an entry of the gallery whose similarity is at
    least the threshold [tolerance * 100] (60 by default); every earlier
    entry scores strictly less and no later entry scores more, so among
    equal scores the first one seen is the one returned. *)
Theorem recognize_face_threshold (image_path : string)
    (known : list known_face) (tolerance : R) (r : pydict) :
  recognize_face image_path known tolerance = Ok r ->
  dict_get r "matched" = Some (PyBool true) ->
  (default_tolerance * 100 = 60)%R /\
  exists probe i face s,
    encode_face image_path = Some probe /\
    nth_error known i = Some face /\ scores probe face s /\
    r = matched_result face s /\
    dict_get r "confidence" = Some (PyFloat s) /\
    (s >= tolerance * 100)%R /\
    (forall j face' s', j < i -> nth_error known j = Some face' ->
       scores probe face' s' -> (s' < s)%R) /\
    (forall j face' s', i < j -> nth_error known j = Some face' ->
       scores probe face' s' -> (s' <= s)%R).
Proof.
  unfold recognize_face, recognize_encoding. intros Hr Hm.
  split; [unfold default_tolerance; lra|].
  destruct (encode_face image_path) as [probe|];
    [|injection Hr as <-; discriminate].
  destruct known as [|k0 rest]; [injection Hr as <-; discriminate|].
  destruct (scan_gallery probe tolerance (k0 :: rest) None 0) as [[bm bs]|msg]
    eqn:Hscan; cbn [bind fst snd] in Hr; [|discriminate].
  apply scan_gallery_spec in Hscan
    as [(-> & -> & _) | (i & f & Hi & -> & Hf & _ & Hge & Hlo & Hhi)].
  - injection Hr as <-. discriminate.
  - injection Hr as <-. exists probe, i, f, bs. repeat split; auto.
Qed.

(** C2, as amended: [recognize_face] returns the no-match dict exactly when
    the probe has no encoding, or the gallery is empty, or the scan runs
    through and no entry has a similarity that is both positive and at
    least the threshold; for a positive tolerance the last case is: no
    entry reaches the threshold.  An empty gallery gives the no-match dict
    for every probe. *)
Theorem recognize_face_no_match_iff (image_path : string)
    (known : list known_face) (tolerance : R) :
  recognize_face image_path [] tolerance = Ok no_match /\
  (recognize_face image_path known tolerance = Ok no_match <->
     encode_face image_path = None \/ known = [] \/
     exists probe, encode_face image_path = Some probe /\
       comparable probe known /\ none_qualifies probe known tolerance) /\
  ((0 < tolerance)%R ->
   (recognize_face image_path known tolerance = Ok no_match <->
      encode_face image_path = None \/ known = [] \/
      exists probe, encode_face image_path = Some probe /\
        comparable probe known /\ none_reaches probe known tolerance)).
Proof.
  assert (Hiff :
    recognize_face image_path known tolerance = Ok no_match <->
      encode_face image_path = None \/ known = [] \/
      exists probe, encode_face image_path = Some probe /\
        comparable probe known /\ none_qualifies probe known tolerance).
  { unfold recognize_face, recognize_encoding.
    destruct (encode_face image_path) as [probe|];
      [|split; intros; [now left|reflexivity]].
    destruct known as [|k0 rest];
      [split; intros; [right; now left|reflexivity]|].
    split.
    - intros Hr. right. right. exists probe. split; [reflexivity|].
      destruct (scan_gallery probe tolerance (k0 :: rest) None 0)
        as [[bm bs]|msg] eqn:Hscan; cbn [bind fst snd] in Hr; [|discriminate].
      split.
      + eapply scan_gallery_returns; eauto.
      + apply scan_gallery_spec in Hscan
          as [(-> & -> & Hnone) | (i & f & _ & -> & _)];
          [exact Hnone | discriminate].
    - intros [H | [H | (probe' & [= <-] & Hc & Hnone)]]; try discriminate.
      destruct (proj1 (scan_gallery_returns probe tolerance (k0 :: rest) None 0%R) Hc)
        as [[bm bs] Hscan].
      rewrite Hscan. cbn [bind fst snd].
      apply scan_gallery_spec in Hscan
        as [(-> & -> & _) | (i & f & Hi & -> & Hf & Hgt & Hge & _)];
        [reflexivity|].
      exfalso. apply (Hnone f bs); auto.
      eapply nth_error_In; eauto. }
  split; [|split; [exact Hiff|]].
  - unfold recognize_face, recognize_encoding.
    now destruct (encode_face image_path).
  - intros Hpos. rewrite Hiff.
    assert (Heq : forall probe,
      none_qualifies probe known tolerance <-> none_reaches probe known tolerance).
    { intros probe. unfold none_qualifies, none_reaches.
      split; intros H face s Hin Hs; specialize (H face s Hin Hs).
      - destruct (Rlt_dec s (tolerance * 100)); [assumption|].
        exfalso. apply H. lra.
      - lra. }
    split; (intros [H | [H | (probe & He & Hc & Hn)]];
      [now left | now right; left |
       right; right; exists probe; repeat split; auto; now apply Heq]).
Qed.

(** ** Extraction *)

Lemma calcHist_length (img : gray_image) : length (calcHist img) = 256.
Proof. unfold calcHist. now rewrite length_map, length_seq. Qed.

Lemma normalize_length (hist : ndarray) :
  length (normalize hist) = length hist.
Proof. unfold normalize. apply length_map. Qed.

Lemma hog_size_value : hog_size = 2916.
Proof. reflexivity. Qed.

(** Python's [v[:64]] on a vector that has at least 64 entries. *)
Lemma firstn_64_length {A : Type} (v : list A) :
  64 <= length v -> length (firstn 64 v) = 64.
Proof. intros H. rewrite length_firstn. lia. Qed.

Lemma create_face_encoding_parts (face_image : gray_image) :
  length (hog_compute face_image) = hog_size ->
  length (_create_face_encoding face_image) = 128 /\
  firstn 64 (_create_face_encoding face_image) =
    firstn 64 (normalize (calcHist face_image)) /\
  skipn 64 (_create_face_encoding face_image) =
    firstn 64 (hog_compute face_image).
Proof.
  intros Hhog. unfold _create_face_encoding.
  assert (Hh : length (firstn 64 (normalize (calcHist face_image))) = 64).
  { apply firstn_64_length. rewrite normalize_length, calcHist_length. lia. }
  assert (Hg : length (firstn 64 (hog_compute face_image)) = 64).
  { apply firstn_64_length. rewrite Hhog, hog_size_value. lia. }
  split; [|split].
  - rewrite length_app, Hh, Hg. reflexivity.
  - rewrite firstn_app, Hh, Nat.sub_diag, firstn_O, app_nil_r.
    rewrite firstn_firstn. reflexivity.
  - rewrite skipn_app, Hh, Nat.sub_diag, skipn_O.
    rewrite skipn_all2 by lia. reflexivity.
Qed.

(** C4: on a 100x100 crop the encoding has 128 entries, the first 64 bins
    of the normalised 256-bin histogram followed by the first 64 values of
    the HOG descriptor; so every encoding the extractor returns has length
    128.  The two assumptions are what OpenCV guarantees for the calls the
    code makes: [resize(., (100, 100))] returns a 100x100 image and
    [hog.compute] on a window-sized image returns one descriptor. *)
Theorem create_face_encoding_128 :
  (forall g, has_shape 100 100 (resize g) = true) ->
  (forall img, has_shape 100 100 img = true ->
     length (hog_compute img) = hog_size) ->
  (forall face_image, has_shape 100 100 face_image = true ->
     length (calcHist face_image) = 256 /\
     length (_create_face_encoding face_image) = 128 /\
     firstn 64 (_create_face_encoding face_image) =
       firstn 64 (normalize (calcHist face_image)) /\
     skipn 64 (_create_face_encoding face_image) =
       firstn 64 (hog_compute face_image)) /\
  (forall frame0 enc,
     get_face_encoding_from_cv2 frame0 = Some enc -> length enc = 128) /\
  (forall image_path enc,
     encode_face image_path = Some enc -> length enc = 128).
Proof.
  intros Hresize Hhog.
  assert (Hget : forall frame0 enc,
    get_face_encoding_from_cv2 frame0 = Some enc -> length enc = 128).
  { intros [fr|] enc; unfold get_face_encoding_from_cv2; [|discriminate].
    destruct (detect_faces_opencv (Some fr)) as [|first others];
      [discriminate|].
    intros Henc. injection Henc as <-.
    apply create_face_encoding_parts. apply Hhog, Hresize. }
  split; [|split; [exact Hget|]].
  - intros face_image Hshape. split; [apply calcHist_length|].
    apply create_face_encoding_parts. now apply Hhog.
  - intros image_path enc. unfold encode_face.
    destruct (imread image_path); [apply Hget|discriminate].
Qed.

(** On regions whose area fits an [int32] the sort key is the area. *)
Lemma area_key_exact (f : rect) :
  (0 <= rw f * rh f < 2 ^ 31)%Z -> area_key f = (rw f * rh f)%Z.
Proof.
  intros H. unfold area_key, int32.
  rewrite Z.mod_small; lia.
Qed.

Lemma insert_desc_hd (d f : rect) (l : list rect) :
  hd d (insert_desc f l) =
  match l with
  | [] => f
  | g :: _ => if (area_key f <? area_key g)%Z then g else f
  end.
Proof. destruct l as [|g l']; cbn; [reflexivity|]. now destruct (_ <? _)%Z. Qed.

Lemma sorted_desc_nonempty (f : rect) (l : list rect) :
  sorted_desc (f :: l) <> [].
Proof.
  change (sorted_desc (f :: l)) with (insert_desc f (sorted_desc l)).
  destruct (sorted_desc l) as [|g t]; cbn; [discriminate|].
  destruct (_ <? _)%Z; discriminate.
Qed.

(** The head of the sorted list is the first region of greatest key. *)
Lemma sorted_desc_hd (d f : rect) (l : list rect) :
  exists i m,
    hd d (sorted_desc (f :: l)) = m /\
    nth_error (f :: l) i = Some m /\
    (forall g, In g (f :: l) -> (area_key g <= area_key m)%Z) /\
    (forall j g, j < i -> nth_error (f :: l) j = Some g ->
       (area_key g < area_key m)%Z).
Proof.
  revert f. induction l as [|x l IH]; intros f.
  - exists 0, f. cbn. repeat split; auto.
    + intros g [<-|[]]. lia.
    + intros j g Hj. lia.
  - destruct (IH x) as (i & m & Hhd & Hnth & Hmax & Hfirst).
    change (sorted_desc (f :: x :: l))
      with (insert_desc f (sorted_desc (x :: l))).
    rewrite insert_desc_hd.
    destruct (sorted_desc (x :: l)) as [|g t] eqn:Hs;
      [now apply sorted_desc_nonempty in Hs|].
    cbn [hd] in Hhd. subst g.
    destruct (area_key f <? area_key m)%Z eqn:Hlt.
    + apply Z.ltb_lt in Hlt. exists (S i), m. repeat split; auto.
      * intros g [<-|Hin]; [lia|now apply Hmax].
      * intros [|j] g Hj Hg; cbn in Hg.
        -- now injection Hg as <-.
        -- apply (Hfirst j); auto. lia.
    + apply Z.ltb_ge in Hlt. exists 0, f. repeat split; auto.
      * intros g [<-|Hin]; [lia|]. specialize (Hmax g Hin). lia.
      * intros j g Hj. lia.
Qed.

(** C5: when the detector returns more than one region, whose areas fit
    the [int32] they are multiplied in, the encoding is computed from a
    region of largest area [w * h], the first such region in detection
    order; with two regions of areas 500 and 2000, in either order, it is
    computed from the one of area 2000. *)
Theorem get_face_encoding_largest_face (fr : frame) :
  let faces := detect_faces_opencv (Some fr) in
  (1 < length faces ->
   Forall (fun f => 0 <= rw f * rh f < 2 ^ 31)%Z faces ->
   exists i f,
     nth_error faces i = Some f /\
     (forall g, In g faces -> (rw g * rh g <= rw f * rh f)%Z) /\
     (forall j g, j < i -> nth_error faces j = Some g ->
        (rw g * rh g < rw f * rh f)%Z) /\
     get_face_encoding_from_cv2 (Some fr) = Some (encoding_of_region fr f)) /\
  (forall a b,
     faces = [a; b] \/ faces = [b; a] ->
     (rw a * rh a = 500)%Z -> (rw b * rh b = 2000)%Z ->
     get_face_encoding_from_cv2 (Some fr) = Some (encoding_of_region fr b)).
Proof.
  intros faces.
  assert (Hgen : 1 < length faces ->
    Forall (fun f => 0 <= rw f * rh f < 2 ^ 31)%Z faces ->
    exists i f,
      nth_error faces i = Some f /\
      (forall g, In g faces -> (rw g * rh g <= rw f * rh f)%Z) /\
      (forall j g, j < i -> nth_error faces j = Some g ->
         (rw g * rh g < rw f * rh f)%Z) /\
      get_face_encoding_from_cv2 (Some fr) = Some (encoding_of_region fr f)).
  { intros Hlen Hfit. unfold get_face_encoding_from_cv2.
    fold faces. destruct faces as [|first others] eqn:Hfaces;
      [cbn in Hlen; lia|].
    unfold selected_face.
    apply Nat.ltb_lt in Hlen. rewrite Hlen.
    destruct (sorted_desc_hd first first others)
      as (i & m & -> & Hnth & Hmax & Hfirst).
    rewrite Forall_forall in Hfit.
    assert (Hm : In m (first :: others)) by (eapply nth_error_In; eauto).
    exists i, m. split; [assumption|]. split; [|split; [|reflexivity]].
    - intros g Hg. specialize (Hmax g Hg).
      rewrite !area_key_exact in Hmax by auto. exact Hmax.
    - intros j g Hj Hg. specialize (Hfirst j g Hj Hg).
      apply nth_error_In in Hg.
      rewrite !area_key_exact in Hfirst by auto. exact Hfirst. }
  split; [exact Hgen|].
  intros a b Hfaces Ha Hb.
  destruct Hgen as (i & f & Hnth & Hmax & _ & ->).
  - destruct Hfaces as [-> | ->]; cbn; lia.
  - destruct Hfaces as [-> | ->]; repeat constructor; lia.
  - apply nth_error_In in Hnth.
    assert (Hbin : In b faces) by (destruct Hfaces as [-> | ->]; cbn; auto).
    specialize (Hmax b Hbin).
    assert (Hf : f = a \/ f = b).
    { destruct Hfaces as [Hf | Hf]; rewrite Hf in Hnth; cbn in Hnth;
        destruct Hnth as [H | [H | []]]; subst; auto. }
    destruct Hf as [-> | ->]; [lia|reflexivity].
Qed.

(** ** Batch runs *)

Lemma item_entry_path (img_path : string) :
  entry_path (item_entry img_path) = img_path.
Proof.
  unfold item_entry.
  destruct (validate_image_file img_path) as [[|] message]; [|reflexivity].
  now destruct (search_criminal_database img_path).
Qed.

(** One iteration on what a worker really returns. *)
Lemma handle_future_worker (total_images : nat) (st : run_state)
    (img_path : string) :
  let st' := handle_future total_images st img_path
               (Ok (_process_single_image img_path)) in
  st_processed st' = st_processed st + 1 /\
  st_successful st' =
    st_successful st + (if succeeds img_path then 1 else 0) /\
  st_failed st' = st_failed st + (if succeeds img_path then 0 else 1) /\
  st_results st' = st_results st ++ [item_entry img_path] /\
  exists evs, st_trace st' = st_trace st ++ evs /\
    forallb is_item_event evs = true.
Proof.
  unfold handle_future, succeeds, item_entry, _process_single_image.
  destruct (validate_image_file img_path) as [[|] message]; cbn.
  - destruct (search_criminal_database img_path) as [found|msg]; cbn;
      repeat split; try lia; eexists; split; reflexivity.
  - repeat split; try lia; eexists; split; reflexivity.
Qed.

Lemma flag_at_mono (self : BatchProcessor) (sch : schedule) (k k' : nat) :
  k <= k' -> flag_at self sch k = true -> flag_at self sch k' = true.
Proof.
  unfold flag_at. intros Hk.
  destruct (is_cancelled self); [reflexivity|]. cbn.
  destruct (cancel_before sch) as [c|]; [|discriminate].
  intros H. apply Nat.leb_le in H. apply Nat.leb_le. lia.
Qed.

Lemma handled_le (self : BatchProcessor) (sch : schedule)
    (pending : list string) :
  forall k, handled self sch pending k <= length pending.
Proof.
  induction pending as [|p rest IH]; intros k; cbn; [lia|].
  destruct (flag_at self sch k); [lia|]. specialize (IH (S k)). lia.
Qed.

(** The loop, summarised: it handles the first [handled] futures, in the
    order they were yielded, and leaves through [break] exactly when
    futures remain. *)
Lemma consume_spec (self : BatchProcessor) (sch : schedule)
    (total_images : nat) (pending : list string) :
  forall k st,
    let n := handled self sch pending k in
    let out := consume self sch total_images pending k st in
    let done := firstn n pending in
    snd out = Nat.ltb n (length pending) /\
    st_processed (fst out) = st_processed st + n /\
    st_successful (fst out) =
      st_successful st + length (filter succeeds done) /\
    st_failed (fst out) =
      st_failed st + length (filter (fun p => negb (succeeds p)) done) /\
    st_results (fst out) = st_results st ++ map item_entry done /\
    exists evs,
      forallb is_item_event evs = true /\
      st_trace (fst out) =
        st_trace st ++ evs ++
        (if snd out then [LogInfo "Batch processing cancelled"] else []).
Proof.
  induction pending as [|p rest IH]; intros k st; cbn [consume handled].
  - cbn. repeat split; try lia; try (now rewrite app_nil_r).
    exists []. split; [reflexivity|]. now rewrite app_nil_r.
  - destruct (flag_at self sch k) eqn:Hflag.
    + cbn. repeat split; try lia; try (now rewrite app_nil_r).
      exists []. split; reflexivity.
    + specialize (IH (S k) (handle_future total_images st p
                              (Ok (_process_single_image p)))).
      cbn zeta in IH.
      destruct IH as (Hb & Hp & Hs & Hf & Hr & evs & Hevs & Ht).
      destruct (handle_future_worker total_images st p)
        as (Hp1 & Hs1 & Hf1 & Hr1 & evs1 & Ht1 & Hevs1).
      cbn [firstn filter map length].
      rewrite Hp, Hs, Hf, Hr, Hp1, Hs1, Hf1, Hr1.
      split; [exact Hb|].
      split; [lia|].
      split; [destruct (succeeds p); cbn; lia|].
      split; [destruct (succeeds p); cbn; lia|].
      split; [now rewrite <- app_assoc|].
      exists (evs1 ++ evs). split.
      * rewrite forallb_app, Hevs1, Hevs. reflexivity.
      * rewrite Ht, Ht1. now rewrite <- !app_assoc.
Qed.

Lemma handled_never_cancelled (self : BatchProcessor) (sch : schedule)
    (pending : list string) :
  is_cancelled self = false -> cancel_before sch = None ->
  forall k, handled self sch pending k = length pending.
Proof.
  intros Hc Hn. induction pending as [|p rest IH]; intros k; cbn;
    [reflexivity|].
  unfold flag_at. rewrite Hc, Hn. cbn. now rewrite IH.
Qed.

Lemma handled_cancel_before (self : BatchProcessor) (sch : schedule)
    (pending : list string) (c : nat) :
  is_cancelled self = false -> cancel_before sch = Some c ->
  forall k, handled self sch pending k = Nat.min (c - k) (length pending).
Proof.
  intros Hc Hn. induction pending as [|p rest IH]; intros k; cbn [handled length].
  - lia.
  - unfold flag_at. rewrite Hc, Hn. cbn [orb].
    destruct (Nat.leb c k) eqn:Hle.
    + apply Nat.leb_le in Hle. lia.
    + apply Nat.leb_gt in Hle. rewrite IH. lia.
Qed.

Lemma filter_length_perm {A : Type} (f : A -> bool) (l l' : list A) :
  Permutation l l' -> length (filter f l) = length (filter f l').
Proof.
  induction 1 as [|x l l' _ IH|x y l|l l' l'' _ IH1 _ IH2]; cbn.
  - reflexivity.
  - destruct (f x); cbn; congruence.
  - destruct (f x), (f y); reflexivity.
  - congruence.
Qed.

Lemma item_events_not_completed (evs : list event) (s : summary) :
  forallb is_item_event evs = true -> ~ In (batch_completed s) evs.
Proof.
  intros Hall Hin. rewrite forallb_forall in Hall.
  specialize (Hall _ Hin). discriminate.
Qed.

Lemma submits_not_completed (paths : list string) (s : summary) :
  ~ In (batch_completed s) (map Submit paths).
Proof. intros Hin. apply in_map_iff in Hin as (p & Hp & _). discriminate. Qed.

(** A run, summarised: the start line and one [Submit] per path; the
    events of the handled futures; the cancellation line when the loop was
    left through [break]; then either the time-out report or the summary
    and the completion line. *)
Lemma run_spec (self : BatchProcessor) (sch : schedule) :
  let paths := image_paths self in
  let n := handled self sch (yielded sch) 0 in
  let done := firstn n (yielded sch) in
  let broke := Nat.ltb n (length (yielded sch)) in
  exists start evs,
    forallb is_item_event evs = true /\
    ((negb broke && timed_out sch = true /\
      exists msg,
        run self sch =
          (LogInfo start :: map Submit paths) ++ evs ++
          [LogError ("Batch processing error: " ++ msg);
           error_occurred "Batch Process" msg])
     \/
     (negb broke && timed_out sch = false /\
      exists s finish,
        run self sch =
          (LogInfo start :: map Submit paths) ++ evs ++
          (if broke then [LogInfo "Batch processing cancelled"] else []) ++
          [batch_completed s; LogInfo finish] /\
        total s = length paths /\
        processed s = n /\
        successful s = length (filter succeeds done) /\
        failed s = length (filter (fun p => negb (succeeds p)) done) /\
        results s = self_results self ++ map item_entry done /\
        timestamp s = now sch)).
Proof.
  intros paths n done broke. unfold run.
  match goal with
  | |- context [consume self sch ?t ?l 0 ?st0] =>
      pose proof (consume_spec self sch t l 0 st0) as Hspec;
      destruct (consume self sch t l 0 st0) as [st b]
  end.
  cbn zeta in Hspec. cbn [fst snd] in Hspec.
  destruct Hspec as (Hb & Hp & Hs & Hf & Hr & evs & Hevs & Ht).
  fold n in Hb, Hp, Hs, Hf, Hr. fold broke in Hb. subst b.
  eexists. exists evs. split; [exact Hevs|].
  destruct (negb broke && timed_out sch) eqn:Hcase.
  - left. split; [reflexivity|]. eexists.
    rewrite Ht. cbn [st_trace].
    apply andb_true_iff in Hcase as [Hbroke _].
    apply negb_true_iff in Hbroke. rewrite Hbroke.
    rewrite app_nil_r, <- app_assoc. reflexivity.
  - right. split; [reflexivity|]. eexists. eexists.
    split.
    + rewrite Ht. cbn [st_trace]. rewrite <- !app_assoc. reflexivity.
    + cbn [total processed successful failed results timestamp].
      rewrite Hp, Hs, Hf, Hr. cbn. repeat split; reflexivity.
Qed.

(** Every summary a run emits is the one [run_spec] describes. *)
Lemma run_summary (self : BatchProcessor) (sch : schedule) (s : summary) :
  In (batch_completed s) (run self sch) ->
  let n := handled self sch (yielded sch) 0 in
  let done := firstn n (yielded sch) in
  total s = length (image_paths self) /\
  processed s = n /\
  successful s = length (filter succeeds done) /\
  failed s = length (filter (fun p => negb (succeeds p)) done) /\
  results s = self_results self ++ map item_entry done.
Proof.
  intros Hin n done.
  destruct (run_spec self sch) as (start & evs & Hevs & Hrun).
  cbn zeta in Hrun. fold n in Hrun. fold done in Hrun.
  destruct Hrun as [(_ & msg & Hrun) | (_ & s' & finish & Hrun & Hs')];
    rewrite Hrun in Hin; clear Hrun;
    rewrite !in_app_iff in Hin; cbn [In] in Hin.
  - exfalso.
    destruct Hin as [[H | H] | [H | [H | [H | []]]]]; try discriminate.
    + now apply submits_not_completed in H.
    + now apply item_events_not_completed in H.
  - assert (s = s') as ->;
      [|destruct Hs' as (? & ? & ? & ? & ? & _); repeat split; assumption].
    destruct Hin as [[H | H] | [H | [H | [H | [H | []]]]]]; try discriminate.
    + now apply submits_not_completed in H.
    + now apply item_events_not_completed in H.
    + destruct (Nat.ltb n (length (yielded sch))); cbn in H;
        [destruct H as [H | []]; discriminate | destruct H].
    + now injection H.
Qed.

(** C9: in every summary a run emits, whatever the outcomes, the
    completion order, the time-out and the cancellation, the handled items
    are the successful and the failed ones, and the total is the number of
    input paths. *)
Theorem summary_counters (self : BatchProcessor) (sch : schedule)
    (s : summary) :
  In (batch_completed s) (run self sch) ->
  processed s = successful s + failed s /\
  total s = length (image_paths self).
Proof.
  intros Hin. apply run_summary in Hin. cbn zeta in Hin.
  destruct Hin as (Ht & Hp & Hs & Hf & _). split; [|exact Ht].
  rewrite Hp, Hs, Hf, filter_length.
  rewrite firstn_length_le; [reflexivity|apply handled_le].
Qed.

(** C8, as amended: the summary lists the per-item results in the order
    in which [as_completed] yielded the futures (cut where the flag was
    seen), not in submission order; on a run that is not cancelled this is
    a permutation of the input paths, and it is the submission order
    exactly when the futures completed in that order. *)
Theorem summary_results_in_completion_order (self : BatchProcessor)
    (sch : schedule) (s : summary) :
  self_results self = [] ->
  In (batch_completed s) (run self sch) ->
  map entry_path (results s) =
    firstn (handled self sch (yielded sch) 0) (yielded sch) /\
  (is_cancelled self = false -> cancel_before sch = None ->
   map entry_path (results s) = yielded sch /\
   (Permutation (yielded sch) (image_paths self) ->
    Permutation (map entry_path (results s)) (image_paths self) /\
    (map entry_path (results s) = image_paths self <->
     yielded sch = image_paths self))).
Proof.
  intros Hfresh Hin. apply run_summary in Hin. cbn zeta in Hin.
  destruct Hin as (_ & _ & _ & _ & Hr).
  assert (Hpaths : map entry_path (results s) =
    firstn (handled self sch (yielded sch) 0) (yielded sch)).
  { rewrite Hr, Hfresh. cbn [app]. rewrite map_map.
    rewrite <- (map_id (firstn _ _)) at 2.
    apply map_ext. apply item_entry_path. }
  split; [exact Hpaths|].
  intros Hc Hn. rewrite Hpaths.
  rewrite handled_never_cancelled by assumption.
  rewrite firstn_all. split; [reflexivity|].
  intros Hperm. split; [exact Hperm|reflexivity].
Qed.

(** C6, as amended: on a run that is neither cancelled nor timed out, a
    failure of one item (an invalid image, or an exception raised by the
    search) is recorded as that item's failure, with the validator's
    message behind ["Invalid image: "] or with the text of the exception
    (which may be empty), and every other item is still handled: the
    summary counts all items, the successful and the failed ones. *)
Theorem batch_failure_isolated (self : BatchProcessor) (sch : schedule) :
  is_cancelled self = false -> cancel_before sch = None ->
  timed_out sch = false -> self_results self = [] ->
  Permutation (yielded sch) (image_paths self) ->
  exists s,
    In (batch_completed s) (run self sch) /\
    total s = length (image_paths self) /\
    processed s = length (image_paths self) /\
    successful s = length (filter succeeds (image_paths self)) /\
    failed s =
      length (filter (fun p => negb (succeeds p)) (image_paths self)) /\
    (forall p, In p (image_paths self) -> In (item_entry p) (results s)) /\
    (forall p msg, In p (image_paths self) ->
       fst (validate_image_file p) = true ->
       search_criminal_database p = Raise msg ->
       In (Failed p msg) (results s)) /\
    (forall p, In p (image_paths self) ->
       fst (validate_image_file p) = false ->
       exists error_msg,
         In (Failed p error_msg) (results s) /\ error_msg <> "").
Proof.
  intros Hc Hn Ht Hfresh Hperm.
  destruct (run_spec self sch) as (start & evs & Hevs & Hrun).
  cbn zeta in Hrun.
  rewrite (handled_never_cancelled self sch _ Hc Hn) in Hrun.
  rewrite Nat.ltb_irrefl, Ht, firstn_all in Hrun. cbn [negb andb] in Hrun.
  destruct Hrun as [(Habs & _) | (_ & s & finish & Hrun & Htot & Hp & Hs & Hf & Hr & _)];
    [discriminate|].
  assert (Hentries : forall p, In p (image_paths self) ->
                               In (item_entry p) (results s)).
  { intros p Hin. rewrite Hr, Hfresh. cbn [app]. apply in_map.
    eapply Permutation_in; [symmetry; exact Hperm|exact Hin]. }
  exists s. split; [|split; [exact Htot|split; [|split; [|split; [|split; [exact Hentries|split]]]]]].
  - rewrite Hrun. apply in_or_app. right. apply in_or_app. right.
    cbn. auto.
  - rewrite Hp. now apply Permutation_length.
  - rewrite Hs. now apply filter_length_perm.
  - rewrite Hf. now apply filter_length_perm.
  - intros p msg Hin Hvalid Hraise. specialize (Hentries p Hin).
    unfold item_entry in Hentries.
    destruct (validate_image_file p) as [valid message]. cbn in Hvalid.
    subst valid. now rewrite Hraise in Hentries.
  - intros p Hin Hvalid. specialize (Hentries p Hin).
    unfold item_entry in Hentries.
    destruct (validate_image_file p) as [valid message]. cbn in Hvalid.
    subst valid. eexists. split; [exact Hentries|discriminate].
Qed.

(** C7, as amended: when the flag is first seen set at the check of
    iteration [c], with futures still to come, the loop stops there: the
    summary counts the [c] futures handled before ([processed = c]) and
    lists only their results.  Every path had been submitted to the pool
    before the first check, no task is submitted afterwards, and the run
    then emits the same [batch_completed] signal as a run that was not
    cancelled. *)
Theorem batch_cancel_mid_run (self : BatchProcessor) (sch : schedule)
    (c : nat) :
  is_cancelled self = false -> self_results self = [] ->
  cancel_before sch = Some c -> c < length (yielded sch) ->
  exists start evs s finish,
    run self sch =
      (LogInfo start :: map Submit (image_paths self)) ++ evs ++
      [LogInfo "Batch processing cancelled"; batch_completed s;
       LogInfo finish] /\
    forallb is_item_event evs = true /\
    processed s = c /\ processed s <= c /\
    total s = length (image_paths self) /\
    results s = map item_entry (firstn c (yielded sch)) /\
    saw_cancel (run self sch) /\ emits_completed (run self sch).
Proof.
  intros Hc Hfresh Hn Hlt.
  destruct (run_spec self sch) as (start & evs & Hevs & Hrun).
  cbn zeta in Hrun.
  rewrite (handled_cancel_before self sch _ c Hc Hn) in Hrun.
  rewrite Nat.sub_0_r, Nat.min_l in Hrun by lia.
  apply Nat.ltb_lt in Hlt. rewrite Hlt in Hrun. cbn [negb andb] in Hrun.
  destruct Hrun as [(Habs & _) | (_ & s & finish & Hrun & Htot & Hp & _ & _ & Hr & _)];
    [discriminate|].
  exists start, evs, s, finish.
  split; [exact Hrun|]. split; [exact Hevs|].
  split; [exact Hp|]. split; [lia|]. split; [exact Htot|].
  split; [now rewrite Hr, Hfresh|].
  split.
  - unfold saw_cancel. rewrite Hrun.
    apply in_or_app. right. apply in_or_app. right. cbn. auto.
  - exists s. rewrite Hrun.
    apply in_or_app. right. apply in_or_app. right. cbn. auto.
Qed.

(** ** More on the gallery search *)

(** X5: a match found at some tolerance is returned unchanged at every
    lower tolerance: lowering the threshold never replaces the best match
    by another entry. *)
Theorem recognize_face_lower_tolerance (image_path : string)
    (known : list known_face) (tolerance tolerance' : R) (r : pydict) :
  recognize_face image_path known tolerance = Ok r ->
  dict_get r "matched" = Some (PyBool true) ->
  (tolerance' <= tolerance)%R ->
  recognize_face image_path known tolerance' = Ok r.
Proof.
  unfold recognize_face, recognize_encoding. intros Hr Hm Hle.
  destruct (encode_face image_path) as [probe|];
    [|injection Hr as <-; discriminate].
  destruct known as [|k0 rest]; [injection Hr as <-; discriminate|].
  destruct (scan_gallery probe tolerance (k0 :: rest) None 0) as [[bm bs]|msg]
    eqn:Hscan; cbn [bind fst snd] in Hr; [|discriminate].
  assert (Hc : comparable probe (k0 :: rest))
    by (eapply scan_gallery_returns; eauto).
  destruct (proj1 (scan_gallery_returns probe tolerance' (k0 :: rest) None 0%R) Hc)
    as [[bm' bs'] Hscan'].
  rewrite Hscan'. cbn [bind fst snd].
  apply scan_gallery_spec in Hscan
    as [(-> & -> & _) | (i & f & Hi & -> & Hf & Hgt & Hge & Hlo & Hhi)];
    [injection Hr as <-; discriminate|].
  apply scan_gallery_spec in Hscan'
    as [(-> & -> & Hnone) | (i' & f' & Hi' & -> & Hf' & Hgt' & Hge' & Hlo' & Hhi')].
  - exfalso. apply (Hnone f bs); [eapply nth_error_In; eauto|assumption|].
    split; [lra|]. nra.
  - assert (i = i') as <-.
    { destruct (Nat.lt_trichotomy i i') as [Hlt | [Heq | Hlt]]; [|exact Heq|].
      - pose proof (Hlo' i f bs Hlt Hi Hf).
        pose proof (Hhi i' f' bs' Hlt Hi' Hf'). lra.
      - pose proof (Hlo i' f' bs' Hlt Hi' Hf').
        pose proof (Hhi' i f bs Hlt Hi Hf). lra. }
    rewrite Hi in Hi'. injection Hi' as <-.
    now rewrite (scores_functional _ _ _ _ Hf' Hf).
Qed.

(** ** The remaining methods of the engine *)

Lemma int32_exact (z : Z) : (- 2 ^ 31 <= z < 2 ^ 31)%Z -> int32 z = z.
Proof. intros H. unfold int32. rewrite Z.mod_small; lia. Qed.

(** X6: [extract_faces] returns one location per detected region, in
    detection order, and none for a file that cannot be read; as long as
    the far corner fits an [int32], the location has the region's left
    and top edge, width and height. *)
Theorem extract_faces_locations (image_path : string) :
  (imread image_path = None -> extract_faces image_path = []) /\
  (forall img, imread image_path = Some img ->
     length (extract_faces image_path) =
       length (detect_faces_opencv (Some img)) /\
     forall i f, nth_error (detect_faces_opencv (Some img)) i = Some f ->
       (- 2 ^ 31 <= rx f + rw f < 2 ^ 31)%Z ->
       (- 2 ^ 31 <= ry f + rh f < 2 ^ 31)%Z ->
       exists loc,
         nth_error (extract_faces image_path) i = Some loc /\
         left loc = rx f /\ top loc = ry f /\
         (right loc - left loc = rw f)%Z /\
         (bottom loc - top loc = rh f)%Z).
Proof.
  unfold extract_faces. split; [now intros ->|].
  intros img ->. split; [apply length_map|].
  intros i f Hnth Hx Hy. eexists. split.
  - rewrite nth_error_map, Hnth. reflexivity.
  - cbn [left top right bottom]. rewrite !int32_exact by assumption.
    repeat split; lia.
Qed.

Lemma batch_recognize_loop_spec (known : list known_face) (tolerance : R)
    (image_paths : list string) :
  forall acc,
    match batch_recognize_loop image_paths known tolerance acc with
    | Ok results =>
        exists new,
          results = acc ++ new /\ map image new = image_paths /\
          Forall (fun e =>
                    recognize_face (image e) known tolerance = Ok (match_ e))
                 new
    | Raise msg =>
        exists p, In p image_paths /\
                  recognize_face p known tolerance = Raise msg
    end.
Proof.
  induction image_paths as [|p rest IH]; intros acc; cbn [batch_recognize_loop].
  - exists []. rewrite app_nil_r. repeat split. constructor.
  - destruct (recognize_face p known tolerance) as [r|msg] eqn:Hp;
      cbn [bind].
    + specialize (IH (acc ++ [{| image := p; match_ := r |}])).
      destruct (batch_recognize_loop rest known tolerance _) as [results|msg].
      * destruct IH as (new & -> & Hmap & Hall).
        exists ({| image := p; match_ := r |} :: new).
        rewrite <- app_assoc. split; [reflexivity|].
        split; [cbn; now rewrite Hmap|]. constructor; assumption.
      * destruct IH as (q & Hq & Hraise). exists q. split; [now right|assumption].
    + exists p. split; [now left|assumption].
Qed.

(** X7: [batch_recognize] returns one entry per path, in the order of the
    paths, each holding what [recognize_face] returns for it; it returns
    at all only if every single recognition does (the first exception
    aborts the whole batch); and against an empty gallery every entry is
    the no-match dict. *)
Theorem batch_recognize_entries (image_paths : list string)
    (known : list known_face) (tolerance : R) :
  (forall results, batch_recognize image_paths known tolerance = Ok results ->
     map image results = image_paths /\
     Forall (fun e => recognize_face (image e) known tolerance = Ok (match_ e))
            results) /\
  ((exists results, batch_recognize image_paths known tolerance = Ok results)
   <-> forall p, In p image_paths ->
         exists r, recognize_face p known tolerance = Ok r) /\
  batch_recognize image_paths [] tolerance =
    Ok (map (fun p => {| image := p; match_ := no_match |}) image_paths).
Proof.
  unfold batch_recognize. split; [|split].
  - intros results Hres.
    pose proof (batch_recognize_loop_spec known tolerance image_paths []) as H.
    rewrite Hres in H. destruct H as (new & -> & Hmap & Hall). now split.
  - split.
    + intros [results Hres] p Hp.
      pose proof (batch_recognize_loop_spec known tolerance image_paths []) as H.
      rewrite Hres in H. destruct H as (new & -> & Hmap & Hall).
      rewrite <- Hmap in Hp. apply in_map_iff in Hp as (e & <- & He).
      rewrite Forall_forall in Hall. eauto.
    + intros Hall.
      pose proof (batch_recognize_loop_spec known tolerance image_paths []) as H.
      destruct (batch_recognize_loop image_paths known tolerance [])
        as [results|msg]; [eauto|].
      destruct H as (p & Hp & Hraise).
      destruct (Hall p Hp) as [r Hr]. congruence.
  - assert (Hgen : forall paths acc,
      batch_recognize_loop paths [] tolerance acc =
        Ok (acc ++ map (fun p => {| image := p; match_ := no_match |}) paths)).
    { induction paths as [|p rest IH]; intros acc; cbn [batch_recognize_loop map].
      - now rewrite app_nil_r.
      - assert (Hempty : recognize_face p [] tolerance = Ok no_match).
        { unfold recognize_face, recognize_encoding.
          now destruct (encode_face p). }
        rewrite Hempty. cbn [bind].
        rewrite IH, <- app_assoc. reflexivity. }
    apply (Hgen image_paths []).
Qed.

Lemma Rleb_true (a b : R) : Rleb a b = true <-> (a <= b)%R.
Proof. unfold Rleb. destruct (Rle_dec a b); split; intros; try easy; lra. Qed.

Lemma Rltb_true (a b : R) : Rltb a b = true <-> (a < b)%R.
Proof. unfold Rltb. destruct (Rlt_dec a b); split; intros; try easy; lra. Qed.

(** X8: the quality score is a multiple of 10 between 0 and 100; it is 0
    when no face is detected; and it is 100 exactly when the first
    detected region covers between 5 and 30 percent of the frame, has at
    least two eyes detected in it and a Laplacian variance above 100. *)
Theorem get_face_quality_score_range (frame0 : option frame) :
  get_face_quality_score frame0 <= 100 /\
  (exists k, get_face_quality_score frame0 = 10 * k) /\
  (detect_faces_opencv frame0 = [] -> get_face_quality_score frame0 = 0) /\
  (get_face_quality_score frame0 = 100 <->
   exists fr f others,
     frame0 = Some fr /\ detect_faces_opencv (Some fr) = f :: others /\
     (5 / 100 <=
        IZR (area_key f) / INR (fst (frame_shape fr) * snd (frame_shape fr))
      <= 30 / 100)%R /\
     2 <= length (eye_detectMultiScale (crop (cvtColor_BGR2GRAY fr) f)) /\
     (laplacian_var (crop (cvtColor_BGR2GRAY fr) f) > 100)%R).
Proof.
  destruct frame0 as [fr|].
  2:{ cbn [get_face_quality_score].
      split; [lia|]. split; [exists 0; reflexivity|].
      split; [reflexivity|]. split; [discriminate|].
      intros (fr & f & others & Hfr & _). discriminate. }
  unfold get_face_quality_score.
  destruct (detect_faces_opencv (Some fr)) as [|f others] eqn:Hfaces.
  { split; [lia|]. split; [exists 0; reflexivity|].
    split; [reflexivity|]. split; [discriminate|].
    intros (fr' & f & others & Hfr & Hd & _). injection Hfr as <-.
    rewrite Hfaces in Hd. discriminate. }
  cbv zeta.
  set (ratio := (IZR (area_key f) /
                 INR (fst (frame_shape fr) * snd (frame_shape fr)))%R).
  set (roi := crop (cvtColor_BGR2GRAY fr) f).
  assert (Hiff : forall P : Prop,
    (P <-> ((5 / 100 <= ratio <= 30 / 100)%R /\
            2 <= length (eye_detectMultiScale roi) /\
            (laplacian_var roi > 100)%R)) ->
    (P <-> exists fr' f' others',
       Some fr = Some fr' /\
       detect_faces_opencv (Some fr') = f' :: others' /\
       (5 / 100 <=
          IZR (area_key f') /
          INR (fst (frame_shape fr') * snd (frame_shape fr')) <= 30 / 100)%R /\
       2 <= length (eye_detectMultiScale (crop (cvtColor_BGR2GRAY fr') f')) /\
       (laplacian_var (crop (cvtColor_BGR2GRAY fr') f') > 100)%R)).
  { intros P HP. rewrite HP. split.
    - intros (H1 & H2 & H3). exists fr, f, others. auto.
    - intros (fr' & f' & others' & [= <-] & Hd & H).
      rewrite Hfaces in Hd. injection Hd as <- <-. exact H. }
  destruct (Rleb (5 / 100) ratio && Rleb ratio (30 / 100)) eqn:B1;
    [|destruct (Rleb (3 / 100) ratio && Rleb ratio (40 / 100)) eqn:B2];
    (destruct (Nat.leb 2 (length (eye_detectMultiScale roi))) eqn:E1;
       [|destruct (Nat.eqb (length (eye_detectMultiScale roi)) 1) eqn:E2]);
    (destruct (Rgtb (laplacian_var roi) 100) eqn:L1;
       [|destruct (Rgtb (laplacian_var roi) 50) eqn:L2]);
    cbn [Nat.add Nat.min];
    (split; [lia|]);
    (split;
       [match goal with |- exists k, ?n = _ => exists (n / 10); reflexivity end|]);
    (split; [discriminate|]);
    apply Hiff;
    try (split; [discriminate|];
         intros (H1 & H2 & H3);
         try (apply Nat.leb_gt in E1; lia);
         try (apply Rgtb_true in H3; congruence);
         assert (Hb : Rleb (5 / 100) ratio && Rleb ratio (30 / 100) = true)
           by (apply andb_true_iff; split; apply Rleb_true; lra);
         congruence).
  split; [intros _|reflexivity].
  apply andb_true_iff in B1 as [B1 B1']. apply Rleb_true in B1, B1'.
  apply Nat.leb_le in E1. apply Rgtb_true in L1. repeat split; assumption.
Qed.

(** The region the encoding is computed from has the greatest sort key. *)
Lemma selected_face_max (first : rect) (others : list rect) :
  In (selected_face first others) (first :: others) /\
  forall g, In g (first :: others) ->
    (area_key g <= area_key (selected_face first others))%Z.
Proof.
  unfold selected_face. destruct others as [|second rest].
  - cbn. split; [now left|]. intros g [<-|[]]. lia.
  - change (Nat.ltb 1 (length (first :: second :: rest))) with true.
    cbv iota.
    destruct (sorted_desc_hd first first (second :: rest))
      as (i & m & -> & Hnth & Hmax & _).
    split; [eapply nth_error_In; eauto|exact Hmax].
Qed.

(** ** More on batch runs *)

Lemma handle_future_worker_events (total_images : nat) (st : run_state)
    (img_path : string) :
  let st' := handle_future total_images st img_path
               (Ok (_process_single_image img_path)) in
  st_trace st' =
    st_trace st ++ item_events total_images (S (st_processed st)) img_path /\
  st_total_matches st' =
    st_total_matches st + entry_match_count (item_entry img_path).
Proof.
  unfold handle_future, item_events, item_entry, _process_single_image.
  rewrite Nat.add_1_r.
  destruct (validate_image_file img_path) as [[|] message];
    cbn [negb success matches error st_processed st_trace st_total_matches
         entry_match_count].
  - destruct (search_criminal_database img_path) as [found|msg];
      cbn [success matches error st_processed st_trace st_total_matches
           entry_match_count]; split; try reflexivity; lia.
  - split; [reflexivity|lia].
Qed.

Lemma consume_events (self : BatchProcessor) (sch : schedule)
    (total_images : nat) (pending : list string) :
  forall k st,
    let n := handled self sch pending k in
    let out := consume self sch total_images pending k st in
    let done := firstn n pending in
    st_trace (fst out) =
      st_trace st ++ loop_events total_images (st_processed st) done ++
      (if snd out then [LogInfo "Batch processing cancelled"] else []) /\
    st_total_matches (fst out) =
      st_total_matches st +
      list_sum (map entry_match_count (map item_entry done)).
Proof.
  induction pending as [|p rest IH]; intros k st; cbn [consume handled].
  - cbn. rewrite app_nil_r. split; [reflexivity|lia].
  - destruct (flag_at self sch k) eqn:Hflag.
    + cbn. split; [reflexivity|lia].
    + specialize (IH (S k) (handle_future total_images st p
                              (Ok (_process_single_image p)))).
      cbn zeta in IH. destruct IH as (Ht & Hm).
      destruct (handle_future_worker total_images st p) as (Hp1 & _).
      destruct (handle_future_worker_events total_images st p) as (Ht1 & Hm1).
      cbn [firstn loop_events map]. unfold list_sum. cbn [fold_right].
      fold (list_sum (map entry_match_count (map item_entry
              (firstn (handled self sch rest (S k)) rest)))).
      rewrite Ht, Hm, Ht1, Hm1, Hp1, Nat.add_1_r, <- !app_assoc.
      split; [reflexivity|lia].
Qed.

(** Everything a run emits, in closed form. *)
Lemma run_exact (self : BatchProcessor) (sch : schedule) :
  let total_images := length (image_paths self) in
  let n := handled self sch (yielded sch) 0 in
  run self sch =
    (LogInfo ("Starting batch processing: " ++ str_of_nat total_images ++
              " images") :: map Submit (image_paths self)) ++
    loop_events total_images 0 (firstn n (yielded sch)) ++
    (if Nat.ltb n (length (yielded sch))
     then [LogInfo "Batch processing cancelled"] else []) ++
    run_ending self sch.
Proof.
  intros total_images n. unfold run, run_ending.
  fold total_images. fold n.
  match goal with
  | |- context [consume self sch total_images (yielded sch) 0 ?st0] =>
      pose proof (consume_spec self sch total_images (yielded sch) 0 st0)
        as Hspec;
      pose proof (consume_events self sch total_images (yielded sch) 0 st0)
        as Hev;
      destruct (consume self sch total_images (yielded sch) 0 st0) as [st b]
  end.
  cbn zeta in Hspec, Hev. cbn [fst snd st_processed st_successful st_failed
    st_total_matches st_results st_trace] in Hspec, Hev.
  fold n in Hspec, Hev.
  destruct Hspec as (Hb & Hp & Hs & Hf & Hr & _). destruct Hev as (Ht & Hm).
  subst b. rewrite Ht, Hp, Hs, Hf, Hr, Hm. cbn [Nat.add].
  destruct (negb (Nat.ltb n (length (yielded sch))) && timed_out sch);
    rewrite <- !app_assoc; reflexivity.
Qed.

Lemma progress_of_app (a b : list event) :
  progress_of (a ++ b) = progress_of a ++ progress_of b.
Proof.
  induction a as [|e a IH]; [reflexivity|].
  cbn [app progress_of]. destruct e; rewrite IH; reflexivity.
Qed.

Lemma progress_of_submits (paths : list string) :
  progress_of (map Submit paths) = [].
Proof. induction paths as [|p paths IH]; [reflexivity|exact IH]. Qed.

Lemma progress_of_loop_events (total_images : nat) (done : list string) :
  forall count,
    progress_of (loop_events total_images count done) =
      map (fun i => (i, total_images)) (seq (S count) (length done)).
Proof.
  induction done as [|p rest IH]; intros count; [reflexivity|].
  cbn [loop_events length seq map]. rewrite progress_of_app, IH.
  unfold item_events. destruct (item_entry p); reflexivity.
Qed.

Lemma loop_events_signals (total_images : nat) (done : list string) :
  forall count,
    forallb is_item_signal (loop_events total_images count done) = true.
Proof.
  induction done as [|p rest IH]; intros count; [reflexivity|].
  cbn [loop_events]. rewrite forallb_app, IH, andb_true_r.
  unfold item_events. destruct (item_entry p); reflexivity.
Qed.

Lemma in_run (self : BatchProcessor) (sch : schedule) (e : event) :
  is_item_signal e = false ->
  (forall p, e <> Submit p) -> (forall m, e <> LogInfo m) ->
  In e (run self sch) -> In e (run_ending self sch).
Proof.
  intros Hsig Hsub Hinfo. rewrite run_exact. cbv zeta.
  rewrite !in_app_iff. cbn [In].
  intros [[H | H] | [H | [H | H]]].
  - symmetry in H. now apply Hinfo in H.
  - apply in_map_iff in H as (p & Hp & _). symmetry in Hp. now apply Hsub in Hp.
  - pose proof (loop_events_signals (length (image_paths self))
                  (firstn (handled self sch (yielded sch) 0) (yielded sch)) 0)
      as Hall.
    rewrite forallb_forall in Hall. apply Hall in H. congruence.
  - destruct (Nat.ltb _ _); [|destruct H].
    destruct H as [H | []]. symmetry in H. now apply Hinfo in H.
  - exact H.
Qed.

(** X9: a run started after [cancel()] still submits every path to the
    pool, handles none of the futures, and emits a summary that counts
    nothing and leaves [self.results] as it was. *)
Theorem run_after_cancel (self : BatchProcessor) (sch : schedule) :
  yielded sch <> [] ->
  run (fst (cancel self)) sch =
    (LogInfo ("Starting batch processing: " ++
              str_of_nat (length (image_paths self)) ++ " images")
     :: map Submit (image_paths self)) ++
    [LogInfo "Batch processing cancelled";
     batch_completed
       {| total := length (image_paths self); processed := 0;
          successful := 0; failed := 0; total_matches := 0;
          results := self_results self; timestamp := now sch |};
     LogInfo "Batch processing completed: 0 successful, 0 failed"].
Proof.
  intros Hy. rewrite run_exact. cbv zeta. unfold run_ending.
  destruct (yielded sch) as [|p rest] eqn:Hyielded; [contradiction|].
  cbn [cancel fst image_paths self_results handled flag_at is_cancelled orb
       firstn loop_events length Nat.ltb Nat.leb negb andb filter map
       list_sum fold_right app].
  rewrite app_nil_r. reflexivity.
Qed.

(** X10: when the wait on the pool times out on a run that was not
    cancelled, no summary is emitted: the run ends with
    [error_occurred("Batch Process", ...)], although the futures yielded
    before were handled and their progress was notified. *)
Theorem run_timed_out (self : BatchProcessor) (sch : schedule) :
  timed_out sch = true ->
  is_cancelled self = false -> cancel_before sch = None ->
  ~ emits_completed (run self sch) /\
  In (error_occurred "Batch Process"
        (str_of_nat (length (image_paths self) - length (yielded sch)) ++
         " (of " ++ str_of_nat (length (image_paths self)) ++
         ") futures unfinished"))
     (run self sch) /\
  progress_of (run self sch) =
    map (fun i => (i, length (image_paths self)))
        (seq 1 (length (yielded sch))).
Proof.
  intros Ht Hc Hn.
  assert (Hend : run_ending self sch =
    [LogError ("Batch processing error: " ++
               (str_of_nat (length (image_paths self) - length (yielded sch)) ++
                " (of " ++ str_of_nat (length (image_paths self)) ++
                ") futures unfinished"));
     error_occurred "Batch Process"
       (str_of_nat (length (image_paths self) - length (yielded sch)) ++
        " (of " ++ str_of_nat (length (image_paths self)) ++
        ") futures unfinished")]).
  { unfold run_ending.
    rewrite (handled_never_cancelled self sch _ Hc Hn), Nat.ltb_irrefl, Ht.
    reflexivity. }
  split; [|split].
  - intros [s Hin]. apply in_run in Hin; try easy.
    rewrite Hend in Hin. destruct Hin as [H | [H | []]]; discriminate.
  - rewrite run_exact. cbv zeta. rewrite Hend.
    apply in_or_app. right. apply in_or_app. right. apply in_or_app. right.
    right. left. reflexivity.
  - rewrite run_exact. cbv zeta. rewrite Hend.
    rewrite (handled_never_cancelled self sch _ Hc Hn), Nat.ltb_irrefl.
    rewrite firstn_all.
    cbn [app]. cbn [progress_of].
    rewrite !progress_of_app, progress_of_submits, progress_of_loop_events.
    cbn [progress_of app]. now rewrite app_nil_r.
Qed.

Lemma item_entry_count (img_path : string) :
  match item_entry img_path with
  | Succeeded _ found n => n = length found
  | Failed _ _ => True
  end.
Proof.
  unfold item_entry.
  destruct (validate_image_file img_path) as [[|] message]; [|exact I].
  now destruct (search_criminal_database img_path).
Qed.

Lemma summary_new_entries (self : BatchProcessor) (sch : schedule)
    (s : summary) :
  In (batch_completed s) (run self sch) ->
  exists new,
    results s = self_results self ++ new /\
    length new = processed s /\
    total_matches s = list_sum (map entry_match_count new) /\
    Forall (fun e => match e with
                     | Succeeded _ found n => n = length found
                     | Failed _ _ => True
                     end) new.
Proof.
  intros Hin. apply in_run in Hin; try easy.
  unfold run_ending in Hin.
  destruct (negb _ && timed_out sch).
  - destruct Hin as [H | [H | []]]; discriminate.
  - destruct Hin as [H | [H | []]]; [|discriminate].
    injection H as <-.
    exists (map item_entry
              (firstn (handled self sch (yielded sch) 0) (yielded sch))).
    cbn [results processed total_matches].
    split; [reflexivity|]. split; [|split; [reflexivity|]].
    + rewrite length_map. apply firstn_length_le, handled_le.
    + apply Forall_forall. intros e He.
      apply in_map_iff in He as (p & <- & _). apply item_entry_count.
Qed.

(** X11: in every summary a run emits, [results] is what [self.results]
    held before the run followed by one entry per handled future, so it
    grows from run to run while the counters start again; the number of
    new entries is [processed], every successful entry's [match_count] is
    the length of its match list, and [total_matches] is the sum of the
    new entries' match counts. *)
Theorem summary_results_and_matches (self : BatchProcessor) (sch : schedule)
    (s : summary) :
  In (batch_completed s) (run self sch) ->
  exists new,
    results s = self_results self ++ new /\
    length new = processed s /\
    total_matches s = list_sum (map entry_match_count new) /\
    Forall (fun e => match e with
                     | Succeeded _ found n => n = length found
                     | Failed _ _ => True
                     end) new.
Proof. apply summary_new_entries. Qed.

(** X12: the progress notifications of a run count 1, 2, ... up to the
    number of handled futures, each against the number of input paths;
    nothing is notified for futures left unhandled. *)
Theorem run_progress_sequence (self : BatchProcessor) (sch : schedule) :
  progress_of (run self sch) =
    map (fun i => (i, length (image_paths self)))
        (seq 1 (handled self sch (yielded sch) 0)).
Proof.
  rewrite run_exact. cbv zeta.
  cbn [app progress_of].
  rewrite !progress_of_app, progress_of_submits, progress_of_loop_events.
  rewrite firstn_length_le by apply handled_le.
  assert (Hend : progress_of (run_ending self sch) = []).
  { unfold run_ending. now destruct (negb _ && timed_out sch). }
  rewrite Hend.
  destruct (Nat.ltb _ _); cbn [progress_of app]; now rewrite ?app_nil_r.
Qed.


(** ** The image validator *)

Lemma validate_accepts_iff (image_path : string) :
  let facts := file_system image_path in
  (fst (utils_validate_image_file image_path) = true <->
   path_exists facts = Ok true /\
   In (lower (path_suffix facts)) [".jpg"; ".jpeg"; ".png"; ".bmp"] /\
   (exists file_size,
      st_size facts = Ok file_size /\
      (file_size <= 10 * 1024 * 1024)%Z /\ file_size <> 0%Z) /\
   pil_verifies facts = true) /\
  (fst (utils_validate_image_file image_path) = true ->
   snd (utils_validate_image_file image_path) = "Valid image").
Proof.
  intros facts. unfold utils_validate_image_file. fold facts.
  assert (Hext : existsb (String.eqb (lower (path_suffix facts)))
                   ALLOWED_IMAGE_EXTENSIONS = true <->
                 In (lower (path_suffix facts))
                    [".jpg"; ".jpeg"; ".png"; ".bmp"]).
  { rewrite existsb_exists. split.
    - intros (x & Hx & Heq). apply String.eqb_eq in Heq. now subst.
    - intros Hin. exists (lower (path_suffix facts)).
      split; [exact Hin|apply String.eqb_refl]. }
  destruct (path_exists facts) as [[|]|msg].
  2,3: (split; [split; [discriminate|intros (H & _); discriminate]
               |discriminate]).
  destruct (existsb (String.eqb (lower (path_suffix facts)))
              ALLOWED_IMAGE_EXTENSIONS) eqn:Hallowed; cbn [negb].
  2:{ split; [split; [discriminate|]|discriminate].
      intros (_ & Hin & _). apply Hext in Hin. discriminate. }
  destruct (st_size facts) as [file_size|msg].
  2:{ split; [split; [discriminate|]|discriminate].
      intros (_ & _ & (n & Hn & _) & _). discriminate. }
  unfold MAX_IMAGE_SIZE.
  destruct (10 * 1024 * 1024 <? file_size)%Z eqn:Hbig.
  { apply Z.ltb_lt in Hbig.
    split; [split; [discriminate|]|discriminate].
    intros (_ & _ & (n & [= <-] & Hle & _) & _). lia. }
  apply Z.ltb_ge in Hbig.
  destruct (file_size =? 0)%Z eqn:Hzero.
  { apply Z.eqb_eq in Hzero.
    split; [split; [discriminate|]|discriminate].
    intros (_ & _ & (n & [= <-] & _ & Hnz) & _). contradiction. }
  apply Z.eqb_neq in Hzero.
  destruct (pil_verifies facts).
  - split; [|reflexivity]. split; [intros _|reflexivity].
    split; [reflexivity|]. split; [now apply Hext|].
    split; [|reflexivity]. exists file_size. auto.
  - split; [split; [discriminate|]|discriminate].
    intros (_ & _ & _ & H). discriminate.
Qed.

(** X14: [validate_image_file] accepts a path exactly when the file
    exists, its suffix is, up to case, one of the four allowed ones, its
    size is not zero and not above 10 MB, and PIL can open and verify it;
    the message is then "Valid image".  In particular a failing
    [exists()] or [stat()] rejects the file instead of raising. *)
Theorem utils_validate_image_file_accepts (image_path : string) :
  let facts := file_system image_path in
  (fst (utils_validate_image_file image_path) = true <->
   path_exists facts = Ok true /\
   In (lower (path_suffix facts)) [".jpg"; ".jpeg"; ".png"; ".bmp"] /\
   (exists file_size,
      st_size facts = Ok file_size /\
      (file_size <= 10 * 1024 * 1024)%Z /\ file_size <> 0%Z) /\
   pil_verifies facts = true) /\
  (fst (utils_validate_image_file image_path) = true ->
   snd (utils_validate_image_file image_path) = "Valid image").
Proof. apply validate_accepts_iff. Qed.

(** ** The ranked search of the recognition tab *)

(** One iteration of [find_matches] on an entry below the threshold, and
    on one that is taken. *)
Lemma find_matches_skip (probe : ndarray) (face : known_face)
    (rest : list known_face) (acc : list ranked_match) (s : R) :
  calculate_similarity (Some probe) (encoding face) = Ok s ->
  Rgeb s 60 = false ->
  find_matches probe (face :: rest) acc = find_matches probe rest acc.
Proof.
  intros Hs Hge. cbn [find_matches]. rewrite Hs. cbn [bind].
  now rewrite Hge.
Qed.

Lemma find_matches_take (probe : ndarray) (face : known_face)
    (rest : list known_face) (acc : list ranked_match) (s : R)
    (cid : Z) (row : criminal) (nm code : string) :
  calculate_similarity (Some probe) (encoding face) = Ok s ->
  Rgeb s 60 = true ->
  criminal_id face = Some cid -> get_criminal_by_id cid = Ok (Some row) ->
  name face = Some nm -> criminal_code face = Some code ->
  find_matches probe (face :: rest) acc =
    find_matches probe rest
      (acc ++ [{| m_criminal_id := cid; m_name := nm;
                  m_criminal_code := code; m_similarity := s;
                  m_charges := criminal_item row 6;
                  m_case_number := criminal_item row 9 |}]).
Proof.
  intros Hs Hge Hcid Hrow Hnm Hcode. cbn [find_matches].
  rewrite Hs. cbn [bind]. rewrite Hge, Hcid. cbn [subscript bind].
  rewrite Hrow. cbn [bind]. rewrite Hnm, Hcode. reflexivity.
Qed.

Lemma insert_by_similarity_perm (m : ranked_match) (l : list ranked_match) :
  Permutation (insert_by_similarity m l) (m :: l).
Proof.
  induction l as [|g l IH]; cbn [insert_by_similarity]; [reflexivity|].
  destruct (Rltb (m_similarity m) (m_similarity g)); [|reflexivity].
  rewrite IH. apply perm_swap.
Qed.

Lemma sort_by_similarity_perm (l : list ranked_match) :
  Permutation (sort_by_similarity l) l.
Proof.
  induction l as [|m l IH]; [reflexivity|].
  change (sort_by_similarity (m :: l))
    with (insert_by_similarity m (sort_by_similarity l)).
  rewrite insert_by_similarity_perm. now constructor.
Qed.

Lemma insert_by_similarity_sorted (m : ranked_match) (l : list ranked_match) :
  StronglySorted (fun a b => (m_similarity a >= m_similarity b)%R) l ->
  StronglySorted (fun a b => (m_similarity a >= m_similarity b)%R)
                 (insert_by_similarity m l).
Proof.
  induction l as [|g l IH]; intros Hs; cbn [insert_by_similarity].
  - repeat constructor.
  - apply StronglySorted_inv in Hs as [Hs Hg].
    destruct (Rltb (m_similarity m) (m_similarity g)) eqn:Hlt.
    + apply Rltb_true in Hlt. constructor; [now apply IH|].
      eapply Permutation_Forall;
        [symmetry; apply insert_by_similarity_perm|].
      constructor; [lra|exact Hg].
    + assert (Hge : (m_similarity m >= m_similarity g)%R).
      { destruct (Rlt_dec (m_similarity m) (m_similarity g)) as [H|H];
          [|lra]. apply Rltb_true in H. congruence. }
      constructor; [constructor; assumption|].
      constructor; [exact Hge|].
      eapply Forall_impl; [|exact Hg]. cbn. intros a Ha. lra.
Qed.

Lemma sort_by_similarity_sorted (l : list ranked_match) :
  StronglySorted (fun a b => (m_similarity a >= m_similarity b)%R)
                 (sort_by_similarity l).
Proof.
  induction l as [|m l IH]; [constructor|].
  change (sort_by_similarity (m :: l))
    with (insert_by_similarity m (sort_by_similarity l)).
  now apply insert_by_similarity_sorted.
Qed.

(** What [find_matches] adds to its accumulator. *)
Lemma find_matches_spec (probe : ndarray) (known : list known_face) :
  forall acc found,
    find_matches probe known acc = Ok found ->
    exists new,
      found = acc ++ new /\
      Forall (fun m =>
                (m_similarity m >= 60)%R /\
                exists face, In face known /\
                  calculate_similarity (Some probe) (encoding face) =
                    Ok (m_similarity m) /\
                  criminal_id face = Some (m_criminal_id m) /\
                  name face = Some (m_name m) /\
                  criminal_code face = Some (m_criminal_code m)) new.
Proof.
  induction known as [|face rest IH]; intros acc found Hfind;
    cbn [find_matches] in Hfind.
  - injection Hfind as <-. exists []. rewrite app_nil_r. split; constructor.
  - assert (Hlift : forall new,
      Forall (fun m =>
                (m_similarity m >= 60)%R /\
                exists face0, In face0 rest /\
                  calculate_similarity (Some probe) (encoding face0) =
                    Ok (m_similarity m) /\
                  criminal_id face0 = Some (m_criminal_id m) /\
                  name face0 = Some (m_name m) /\
                  criminal_code face0 = Some (m_criminal_code m)) new ->
      Forall (fun m =>
                (m_similarity m >= 60)%R /\
                exists face0, In face0 (face :: rest) /\
                  calculate_similarity (Some probe) (encoding face0) =
                    Ok (m_similarity m) /\
                  criminal_id face0 = Some (m_criminal_id m) /\
                  name face0 = Some (m_name m) /\
                  criminal_code face0 = Some (m_criminal_code m)) new).
    { intros new. apply Forall_impl. intros m (Hge & f & Hin & H).
      split; [exact Hge|]. exists f. split; [now right|exact H]. }
    destruct (calculate_similarity (Some probe) (encoding face)) as [s|msg]
      eqn:Hs; cbn [bind] in Hfind; [|discriminate].
    destruct (Rgeb s 60) eqn:Hge.
    2:{ apply IH in Hfind as (new & -> & Hall). exists new. auto. }
    apply Rgeb_true in Hge.
    destruct (criminal_id face) as [cid|] eqn:Hcid; cbn [subscript bind] in Hfind;
      [|discriminate].
    destruct (get_criminal_by_id cid) as [[row|]|msg]; cbn [bind] in Hfind;
      [| |discriminate].
    2:{ apply IH in Hfind as (new & -> & Hall). exists new. auto. }
    destruct (name face) as [nm|] eqn:Hname; cbn [subscript bind] in Hfind;
      [|discriminate].
    destruct (criminal_code face) as [code|] eqn:Hcode;
      cbn [subscript bind] in Hfind; [|discriminate].
    apply IH in Hfind as (new & -> & Hall).
    eexists (_ :: new). rewrite <- app_assoc. split; [reflexivity|].
    constructor; [|now apply Hlift].
    cbn [m_similarity m_criminal_id m_name m_criminal_code].
    split; [exact Hge|]. exists face. split; [now left|].
    repeat split; assumption.
Qed.

(** X15: in every case (no face, empty database, an exception, or a
    completed search) the worker emits [finished] exactly once, as its last
    signal. *)
Theorem RecognitionWorker_finishes_once (image_path : string) :
  exists before found,
    RecognitionWorker_run image_path = before ++ [rec_finished found] /\
    forall found', ~ In (rec_finished found') before.
Proof.
  unfold RecognitionWorker_run, recognition_failed.
  destruct (encode_face image_path) as [probe|].
  2:{ eexists [_; _], _. split; [reflexivity|].
      intros f [H | [H | []]]; discriminate. }
  destruct get_mugshot_encodings as [[|k0 ks]|msg].
  - eexists [_; _; _], _. split; [reflexivity|].
    intros f [H | [H | [H | []]]]; discriminate.
  - destruct (find_matches probe (k0 :: ks) []) as [found|msg].
    + eexists [_; _; _; _], _. split; [reflexivity|].
      intros f [H | [H | [H | [H | []]]]]; discriminate.
    + eexists [_; _; _; _; _], _. split; [reflexivity|].
      intros f [H | [H | [H | [H | [H | []]]]]]; discriminate.
  - eexists [_; _; _; _], _. split; [reflexivity|].
    intros f [H | [H | [H | [H | []]]]]; discriminate.
Qed.

(** X16: the list handed to [finished] is sorted by similarity, highest
    first, and holds only gallery entries that score at least 60 against
    the probe, with their own id, name and code. *)
Theorem RecognitionWorker_ranked (image_path : string)
    (found : list ranked_match) :
  In (rec_finished found) (RecognitionWorker_run image_path) ->
  StronglySorted (fun a b => (m_similarity a >= m_similarity b)%R) found /\
  forall m, In m found ->
    (m_similarity m >= 60)%R /\
    exists probe known face,
      encode_face image_path = Some probe /\
      get_mugshot_encodings = Ok known /\ In face known /\
      calculate_similarity (Some probe) (encoding face) =
        Ok (m_similarity m) /\
      criminal_id face = Some (m_criminal_id m) /\
      name face = Some (m_name m) /\
      criminal_code face = Some (m_criminal_code m).
Proof.
  unfold RecognitionWorker_run, recognition_failed.
  assert (Hnil : StronglySorted
                   (fun a b => (m_similarity a >= m_similarity b)%R) [] /\
                 forall m, In m [] ->
                   (m_similarity m >= 60)%R /\
                   exists probe known face,
                     encode_face image_path = Some probe /\
                     get_mugshot_encodings = Ok known /\ In face known /\
                     calculate_similarity (Some probe) (encoding face) =
                       Ok (m_similarity m) /\
                     criminal_id face = Some (m_criminal_id m) /\
                     name face = Some (m_name m) /\
                     criminal_code face = Some (m_criminal_code m))
    by (split; [constructor|intros m []]).
  destruct (encode_face image_path) as [probe|].
  2:{ intros [H | [H | [H | []]]]; try discriminate.
      injection H as <-. exact Hnil. }
  destruct get_mugshot_encodings as [[|k0 ks]|msg].
  - intros [H | [H | [H | [H | []]]]]; try discriminate.
    injection H as <-. exact Hnil.
  - destruct (find_matches probe (k0 :: ks) []) as [ms|msg] eqn:Hfind.
    + intros [H | [H | [H | [H | [H | []]]]]]; try discriminate.
      injection H as <-. split; [apply sort_by_similarity_sorted|].
      intros m Hm.
      apply (Permutation_in _ (sort_by_similarity_perm ms)) in Hm.
      apply find_matches_spec in Hfind as (new & -> & Hall).
      cbn [app] in Hm. rewrite Forall_forall in Hall.
      destruct (Hall m Hm) as (Hge & face & Hin & Hs & Hid & Hnm & Hcode).
      split; [exact Hge|]. exists probe, (k0 :: ks), face.
      repeat split; assumption.
    + intros [H | [H | [H | [H | [H | [H | []]]]]]]; try discriminate.
      injection H as <-. exact Hnil.
  - intros [H | [H | [H | [H | [H | []]]]]]; try discriminate.
    injection H as <-. exact Hnil.
Qed.

Lemma hd_insert_by_similarity (m : ranked_match) (l : list ranked_match) :
  hd_error (insert_by_similarity m l) =
  Some (match l with
        | [] => m
        | g :: _ => if Rltb (m_similarity m) (m_similarity g) then g else m
        end).
Proof.
  destruct l as [|g l]; cbn [insert_by_similarity]; [reflexivity|].
  now destruct (Rltb (m_similarity m) (m_similarity g)).
Qed.

(** Appended at the end, an element heads the sorted list only if it beats
    the former head strictly. *)
Lemma hd_sort_snoc (acc : list ranked_match) (x : ranked_match) :
  hd_error (sort_by_similarity (acc ++ [x])) =
  Some (match hd_error (sort_by_similarity acc) with
        | None => x
        | Some m => if Rgtb (m_similarity x) (m_similarity m) then x else m
        end).
Proof.
  induction acc as [|y acc IH]; [reflexivity|].
  change (sort_by_similarity ((y :: acc) ++ [x]))
    with (insert_by_similarity y (sort_by_similarity (acc ++ [x]))).
  change (sort_by_similarity (y :: acc))
    with (insert_by_similarity y (sort_by_similarity acc)).
  rewrite !hd_insert_by_similarity.
  destruct (sort_by_similarity (acc ++ [x])) as [|h' t'] eqn:Hsx;
    [discriminate|].
  cbn [hd_error] in IH. injection IH as ->. f_equal.
  destruct (sort_by_similarity acc) as [|h t]; cbn [hd_error].
  - unfold Rltb, Rgtb.
    destruct (Rlt_dec (m_similarity y) (m_similarity x));
      destruct (Rgt_dec (m_similarity x) (m_similarity y));
      try reflexivity; lra.
  - unfold Rltb, Rgtb.
    destruct (Rgt_dec (m_similarity x) (m_similarity h));
      destruct (Rlt_dec (m_similarity y) (m_similarity h));
      try destruct (Rlt_dec (m_similarity y) (m_similarity x));
      try destruct (Rgt_dec (m_similarity x) (m_similarity y));
      try destruct (Rgt_dec (m_similarity x) (m_similarity h));
      try reflexivity; lra.
Qed.

Lemma Rgeb_default (s : R) : Rgeb s (6 / 10 * 100) = Rgeb s 60.
Proof. replace (6 / 10 * 100)%R with 60%R by lra. reflexivity. Qed.

(** The single-best scan at the default tolerance and the ranked search
    walk the gallery in step. *)
Lemma scan_find_agree (probe : ndarray) (known : list known_face) :
  (forall face cid, In face known -> criminal_id face = Some cid ->
     exists row, get_criminal_by_id cid = Ok (Some row)) ->
  forall bm bs acc bm' bs' found,
    scan_gallery probe (6 / 10) known bm bs = Ok (bm', bs') ->
    find_matches probe known acc = Ok found ->
    agrees bm bs acc -> agrees bm' bs' found.
Proof.
  induction known as [|face rest IH]; intros Hrows bm bs acc bm' bs' found
    Hscan Hfind Hagree.
  - cbn in Hscan, Hfind. injection Hscan as <- <-. now injection Hfind as <-.
  - assert (Hrest : forall f cid, In f rest -> criminal_id f = Some cid ->
                      exists row, get_criminal_by_id cid = Ok (Some row))
      by (intros f cid Hin; apply Hrows; now right).
    cbn [scan_gallery find_matches] in Hscan, Hfind.
    destruct (encoding face) as [enc|] eqn:Henc.
    2:{ cbn [calculate_similarity bind] in Hfind.
        assert (H0 : Rgeb 0 60 = false)
          by (unfold Rgeb; destruct (Rge_dec 0 60); [lra|reflexivity]).
        rewrite H0 in Hfind. eapply IH; eauto. }
    destruct (calculate_similarity (Some probe) (Some enc)) as [s|msg];
      cbn [bind] in Hscan, Hfind; [|discriminate].
    rewrite Rgeb_default in Hscan.
    destruct (Rgeb s 60) eqn:Hge.
    2:{ rewrite andb_false_r in Hscan. eapply IH; eauto. }
    rewrite andb_true_r in Hscan. apply Rgeb_true in Hge.
    destruct (criminal_id face) as [cid|] eqn:Hcid;
      cbn [subscript bind] in Hfind; [|discriminate].
    destruct (Hrows face cid (or_introl eq_refl) Hcid) as [row Hrow].
    rewrite Hrow in Hfind. cbn [bind] in Hfind.
    destruct (name face) as [nm|] eqn:Hname; cbn [subscript bind] in Hfind;
      [|discriminate].
    destruct (criminal_code face) as [code|] eqn:Hcode;
      cbn [subscript bind] in Hfind; [|discriminate].
    match type of Hfind with
    | find_matches _ _ (acc ++ [?x]) = _ => set (m := x) in *
    end.
    pose proof (hd_sort_snoc acc m) as Hhd.
    change (m_similarity m) with s in Hhd.
    destruct (Rgtb s bs) eqn:Hgt.
    + eapply IH; [exact Hrest|exact Hscan|exact Hfind|].
      cbn [agrees]. exists m. split.
      * rewrite Hhd. destruct bm as [f|]; cbn [agrees] in Hagree.
        -- destruct Hagree as (m0 & -> & <- & _). now rewrite Hgt.
        -- destruct Hagree as [-> _]. reflexivity.
      * repeat split; assumption.
    + eapply IH; [exact Hrest|exact Hscan|exact Hfind|].
      destruct bm as [f|]; cbn [agrees] in Hagree |- *.
      * destruct Hagree as (m0 & Hm0 & <- & Hfields).
        exists m0. rewrite Hhd, Hm0, Hgt. split; [reflexivity|].
        split; [reflexivity|exact Hfields].
      * destruct Hagree as [_ ->]. exfalso.
        assert (Rgtb s 0 = true) by (apply Rgtb_true; lra). congruence.
Qed.

(** X17: when the worker reports no error and every gallery entry's
    criminal record can be fetched, a match returned by [recognize_face]
    at the default tolerance is the first entry of the ranked list the
    worker hands to [finished]: same name, similarity, id and code. *)
Theorem RecognitionWorker_head_is_best_match (image_path : string)
    (known : list known_face) (r : pydict) :
  get_mugshot_encodings = Ok known ->
  (forall face cid, In face known -> criminal_id face = Some cid ->
     exists row, get_criminal_by_id cid = Ok (Some row)) ->
  (forall msg, ~ In (rec_log_error msg) (RecognitionWorker_run image_path)) ->
  recognize_face image_path known (6 / 10) = Ok r ->
  dict_get r "matched" = Some (PyBool true) ->
  exists m others,
    In (rec_finished (m :: others)) (RecognitionWorker_run image_path) /\
    r = [("matched", PyBool true); ("name", PyStr (m_name m));
         ("confidence", PyFloat (m_similarity m));
         ("criminal_id", PyInt (m_criminal_id m));
         ("criminal_code", PyStr (m_criminal_code m))].
Proof.
  intros Hdb Hrows Hquiet Hr Hm.
  unfold recognize_face, recognize_encoding in Hr.
  unfold RecognitionWorker_run in Hquiet |- *.
  destruct (encode_face image_path) as [probe|];
    [|injection Hr as <-; discriminate].
  rewrite Hdb in Hquiet |- *.
  destruct known as [|k0 ks]; [injection Hr as <-; discriminate|].
  destruct (scan_gallery probe (6 / 10) (k0 :: ks) None 0) as [[bm bs]|msg]
    eqn:Hscan; cbn [bind fst snd] in Hr; [|discriminate].
  destruct bm as [f|]; [|injection Hr as <-; discriminate].
  injection Hr as <-.
  destruct (find_matches probe (k0 :: ks) []) as [found|msg] eqn:Hfind.
  2:{ exfalso. apply (Hquiet ("Recognition error: " ++ msg)%string).
      unfold recognition_failed. right. right. right. left. reflexivity. }
  pose proof (scan_find_agree probe (k0 :: ks) Hrows None 0%R [] (Some f) bs
                found Hscan Hfind (conj eq_refl eq_refl)) as Hag.
  cbn [agrees] in Hag. destruct Hag as (m & Hhd & <- & Hid & Hnm & Hcode).
  destruct (sort_by_similarity found) as [|m' others] eqn:Hsorted;
    [discriminate|].
  injection Hhd as ->. exists m, others. split.
  - right. right. right. right. left. reflexivity.
  - unfold matched_result. now rewrite Hid, Hnm, Hcode.
Qed.

(** ** The worker of the batch tab *)

Lemma batch_worker_loop_spec (total_images : nat) (known : list known_face)
    (image_paths : list string) :
  forall idx,
    map b_path (fst (batch_worker_loop total_images known image_paths idx)) =
      image_paths /\
    Forall (row_reports known)
      (fst (batch_worker_loop total_images known image_paths idx)) /\
    forall rows,
      ~ In (bw_finished rows)
           (snd (batch_worker_loop total_images known image_paths idx)).
Proof.
  induction image_paths as [|p rest IH]; intros idx; cbn [batch_worker_loop].
  - cbn. repeat split; [constructor|intros rows []].
  - specialize (IH (S idx)).
    destruct (batch_worker_loop total_images known rest (S idx))
      as [rows signals].
    cbn [fst snd] in IH. destruct IH as (Hpaths & Hrows & Hsig).
    destruct (recognize_face p known (6 / 10)) as [r|msg] eqn:Hp;
      cbn [fst snd map b_path].
    + split; [now rewrite Hpaths|]. split.
      * constructor; [|exact Hrows]. unfold row_reports. cbn [b_path].
        rewrite Hp. cbn. repeat split.
      * intros rs [H | H]; [discriminate|now apply (Hsig rs)].
    + split; [now rewrite Hpaths|]. split.
      * constructor; [|exact Hrows]. unfold row_reports. cbn [b_path].
        rewrite Hp. cbn. repeat split.
      * intros rs [H | [H | H]]; try discriminate. now apply (Hsig rs).
Qed.

(** X18: once the gallery has been fetched, the worker of the batch tab
    always ends with [finished], holding one row per input path in the
    order of the input; a recognition that raises only turns its own row
    into an "Error" row.  An exception while fetching the gallery, on the
    other hand, is not caught. *)
Theorem BatchProcessingWorker_rows (image_paths : list string) :
  (forall msg, get_mugshot_encodings = Raise msg ->
     BatchProcessingWorker_run image_paths = Raise msg) /\
  (forall known, get_mugshot_encodings = Ok known ->
     exists signals rows,
       BatchProcessingWorker_run image_paths =
         Ok (signals ++
             [bw_progress 100 "Batch processing complete"; bw_finished rows]) /\
       (forall rows', ~ In (bw_finished rows') signals) /\
       map b_path rows = image_paths /\
       Forall (row_reports known) rows).
Proof.
  unfold BatchProcessingWorker_run. split.
  - now intros msg ->.
  - intros known ->. cbn [bind].
    pose proof (batch_worker_loop_spec (length image_paths) known
                  image_paths 0) as H.
    destruct (batch_worker_loop (length image_paths) known image_paths 0)
      as [rows signals].
    cbn [fst snd] in H. destruct H as (Hpaths & Hrows & Hsig).
    exists signals, rows. auto.
Qed.

(** ** Saving a batch *)

Lemma save_matches_spec (suspect_id : Z) (user_id : nat)
    (found : list pydict) :
  forall writes,
    exists new,
      fst (save_matches suspect_id user_id found writes) = writes ++ new /\
      forallb is_match_row new = true /\
      length new <= length found /\
      (forall u, snd (save_matches suspect_id user_id found writes) = Ok u ->
         length new = length found).
Proof.
  induction found as [|m rest IH]; intros writes; cbn [save_matches].
  - exists []. rewrite app_nil_r. repeat split; auto.
  - assert (Hstop : forall msg,
      exists new,
        fst (writes, @Raise unit msg) = writes ++ new /\
        forallb is_match_row new = true /\
        length new <= length (m :: rest) /\
        (forall u, snd (writes, @Raise unit msg) = Ok u ->
           length new = length (m :: rest))).
    { intros msg. exists []. rewrite app_nil_r. cbn.
      repeat split; try lia. discriminate. }
    destruct (subscript "criminal_id" (dict_get m "criminal_id")) as [cid|msg];
      [|apply Hstop].
    destruct (subscript "similarity" (dict_get m "similarity")) as [sim|msg];
      [|apply Hstop].
    destruct (save_match (length writes) suspect_id cid sim _) as [rowid|msg];
      [|apply Hstop].
    match goal with
    | |- context [save_matches _ _ rest (writes ++ [?w])] =>
        destruct (IH (writes ++ [w])) as (new & Hw & Hall & Hle & Heq);
        exists (w :: new)
    end.
    rewrite Hw, <- app_assoc. cbn [app forallb is_match_row andb length].
    repeat split; auto; try lia.
    intros u Hu. rewrite (Heq u Hu). reflexivity.
Qed.

Lemma filter_suspect_of_matches (rows : list db_write) :
  forallb is_match_row rows = true -> filter is_suspect_row rows = [].
Proof.
  induction rows as [|r rows IH]; [reflexivity|].
  cbn [forallb]. intros H. apply andb_true_iff in H as [Hr Hall].
  cbn [filter]. destruct r; [discriminate|]. now apply IH.
Qed.

Lemma filter_match_of_matches (rows : list db_write) :
  forallb is_match_row rows = true -> filter is_match_row rows = rows.
Proof.
  induction rows as [|r rows IH]; [reflexivity|].
  cbn [forallb]. intros H. apply andb_true_iff in H as [Hr Hall].
  cbn [filter]. rewrite Hr. f_equal. now apply IH.
Qed.

Lemma save_results_spec (stamp : string) (user_id : nat)
    (entries : list result_entry) :
  forall writes,
    exists new,
      fst (save_results stamp user_id entries writes) = writes ++ new /\
      length (filter is_suspect_row new) <=
        length (filter has_matches entries) /\
      length (filter is_match_row new) <=
        list_sum (map (fun e => length (entry_matches e)) entries) /\
      (forall u, snd (save_results stamp user_id entries writes) = Ok u ->
         length (filter is_suspect_row new) =
           length (filter has_matches entries) /\
         length (filter is_match_row new) =
           list_sum (map (fun e => length (entry_matches e)) entries)).
Proof.
  induction entries as [|e rest IH]; intros writes.
  - exists []. cbn. rewrite app_nil_r. repeat split; auto.
  - assert (Hskip : has_matches e = false -> entry_matches e = [] \/ True ->
      save_results stamp user_id (e :: rest) writes =
        save_results stamp user_id rest writes ->
      length (entry_matches e) = 0 ->
      exists new,
        fst (save_results stamp user_id (e :: rest) writes) = writes ++ new /\
        length (filter is_suspect_row new) <=
          length (filter has_matches (e :: rest)) /\
        length (filter is_match_row new) <=
          list_sum (map (fun e0 => length (entry_matches e0)) (e :: rest)) /\
        (forall u,
           snd (save_results stamp user_id (e :: rest) writes) = Ok u ->
           length (filter is_suspect_row new) =
             length (filter has_matches (e :: rest)) /\
           length (filter is_match_row new) =
             list_sum (map (fun e0 => length (entry_matches e0)) (e :: rest)))).
    { intros Hno _ Heq Hlen. rewrite Heq.
      destruct (IH writes) as (new & Hw & Hs & Hm & Hok). exists new.
      cbn [filter map]. rewrite Hno. unfold list_sum. cbn [fold_right].
      fold (list_sum (map (fun e0 => length (entry_matches e0)) rest)).
      rewrite Hlen. cbn [Nat.add]. auto. }
    destruct e as [p [|m ms] n | p msg];
      [apply Hskip; auto | | apply Hskip; auto].
    cbn [save_results].
    destruct (add_suspect (length writes) p _) as [sid|msg].
    2:{ exists []. rewrite app_nil_r. cbn [fst snd filter length].
        split; [reflexivity|]. split; [lia|]. split; [lia|].
        intros u Hu. discriminate Hu. }
    match goal with
    | |- context [save_matches sid user_id (m :: ms) (writes ++ [?w])] =>
        destruct (save_matches_spec sid user_id (m :: ms) (writes ++ [w]))
          as (rows & Hw & Hall & Hle & Heq);
        destruct (save_matches sid user_id (m :: ms) (writes ++ [w]))
          as [writes' [u|msg]]
    end; cbn [fst snd] in Hw, Heq; subst writes'.
    + specialize (Heq u eq_refl).
      match goal with
      | |- context [save_results stamp user_id rest ?w] =>
          destruct (IH w) as (new & Hw' & Hs & Hm & Hok)
      end.
      exists ((SuspectRow p ("Batch processed: " ++ stamp) sid :: rows) ++ new).
      split; [rewrite Hw', <- !app_assoc; reflexivity|].
      rewrite !filter_app, !length_app.
      cbn [filter is_suspect_row is_match_row has_matches map entry_matches].
      rewrite (filter_suspect_of_matches rows Hall),
              (filter_match_of_matches rows Hall).
      unfold list_sum. cbn [fold_right length].
      fold (list_sum (map (fun e0 => length (entry_matches e0)) rest)).
      cbn [length] in Heq, Hle.
      split; [lia|]. split; [lia|].
      intros u' Hu'. destruct (Hok u' Hu') as [H1 H2]. split; lia.
    + exists (SuspectRow p ("Batch processed: " ++ stamp) sid :: rows).
      split; [rewrite <- !app_assoc; reflexivity|].
      cbn [filter is_suspect_row is_match_row has_matches map entry_matches
           fst snd].
      rewrite (filter_suspect_of_matches rows Hall),
              (filter_match_of_matches rows Hall).
      unfold list_sum. cbn [fold_right length].
      fold (list_sum (map (fun e0 => length (entry_matches e0)) rest)).
      cbn [length] in Hle.
      split; [lia|]. split; [lia|]. intros u Hu. discriminate Hu.
Qed.


(** X20: when the summary of a run on a fresh processor is saved and the
    saving logs success, the number of match rows written is the
    summary's [total_matches]. *)
Theorem save_batch_results_total_matches (self : BatchProcessor)
    (sch : schedule) (s : summary) (user_id : nat) (line : string) :
  self_results self = [] ->
  In (batch_completed s) (run self sch) ->
  snd (save_batch_results s user_id) = LogInfo line ->
  length (filter is_match_row (fst (save_batch_results s user_id))) =
    total_matches s.
Proof.
  intros Hfresh Hin Hlog.
  apply summary_new_entries in Hin as (new & Hr & _ & Ht & Hall).
  rewrite Hfresh in Hr. cbn [app] in Hr.
  unfold save_batch_results in *.
  destruct (save_results_spec (timestamp s) user_id (results s) [])
    as (rows & Hw & _ & _ & Hok).
  destruct (save_results (timestamp s) user_id (results s) [])
    as [writes [u|msg]]; cbn [fst snd app] in *; [|discriminate].
  subst writes. destruct (Hok u eq_refl) as [_ ->].
  rewrite Ht, Hr. clear - Hall.
  induction Hall as [|e new He _ IH]; [reflexivity|].
  cbn [map]. unfold list_sum in *. cbn [fold_right]. rewrite IH.
  destruct e; cbn [entry_matches entry_match_count length]; lia.
Qed.

End Core.

(** * Statements that instantiate the parameters *)

Lemma keys_determine_region (l : list rect) (a b : rect) :
  NoDup (map area_key l) -> In a l -> In b l ->
  area_key a = area_key b -> a = b.
Proof.
  induction l as [|x l IH]; intros Hnd Ha Hb Hk; [destruct Ha|].
  cbn [map] in Hnd. apply NoDup_cons_iff in Hnd as [Hx Hnd].
  destruct Ha as [<- | Ha], Hb as [<- | Hb]; auto.
  - exfalso. apply Hx. rewrite Hk. now apply in_map.
  - exfalso. apply Hx. rewrite <- Hk. now apply in_map.
Qed.

(** X21: when no two detected regions have the same sort key (the area,
    as long as it fits an [int32]), the encoding does not depend on the
    order in which the detector reports the regions. *)
Theorem get_face_encoding_order_independent (frame : Type)
    (cvtColor_BGR2GRAY : frame -> gray_image)
    (detect detect' : gray_image -> list rect)
    (resize : gray_image -> gray_image) (hog_compute : gray_image -> ndarray)
    (fr : frame) :
  Permutation (detect (cvtColor_BGR2GRAY fr)) (detect' (cvtColor_BGR2GRAY fr)) ->
  NoDup (map area_key (detect (cvtColor_BGR2GRAY fr))) ->
  get_face_encoding_from_cv2 frame cvtColor_BGR2GRAY detect resize hog_compute
    (Some fr) =
  get_face_encoding_from_cv2 frame cvtColor_BGR2GRAY detect' resize hog_compute
    (Some fr).
Proof.
  intros Hperm Hnd.
  unfold get_face_encoding_from_cv2, detect_faces_opencv.
  destruct (detect (cvtColor_BGR2GRAY fr)) as [|f fs] eqn:Hd;
    destruct (detect' (cvtColor_BGR2GRAY fr)) as [|g gs] eqn:Hd'.
  - reflexivity.
  - apply Permutation_nil in Hperm. discriminate.
  - symmetry in Hperm. apply Permutation_nil in Hperm. discriminate.
  - destruct (selected_face_max f fs) as [Hin Hmax].
    destruct (selected_face_max g gs) as [Hin' Hmax'].
    assert (selected_face f fs = selected_face g gs) as ->; [|reflexivity].
    apply (keys_determine_region (f :: fs)); auto.
    + eapply Permutation_in; [symmetry; exact Hperm|exact Hin'].
    + apply Z.le_antisymm.
      * apply Hmax'. eapply Permutation_in; [exact Hperm|exact Hin].
      * apply Hmax. eapply Permutation_in; [symmetry; exact Hperm|exact Hin'].
Qed.

(** * Evaluating the scorer *)

Lemma sum_squares_cons (x : R) (v : ndarray) :
  sum_squares (x :: v) = (x * x + sum_squares v)%R.
Proof. reflexivity. Qed.

Lemma sum_squares_zip_self (v : ndarray) : sum_squares (zip_sub v v) = 0%R.
Proof.
  induction v as [|x v IH]; [reflexivity|].
  cbn [zip_sub]. rewrite sum_squares_cons, IH. ring.
Qed.

Lemma sum_squares_zeros (n : nat) : sum_squares (repeat 0%R n) = 0%R.
Proof.
  induction n as [|n IH]; [reflexivity|].
  cbn [repeat]. rewrite sum_squares_cons, IH. ring.
Qed.

Lemma sqrt_length_pos (v : ndarray) :
  v <> [] -> (0 < sqrt (INR (length v)))%R.
Proof.
  intros Hv. apply sqrt_lt_R0. apply lt_0_INR.
  destruct v; [contradiction|cbn; lia].
Qed.

(** An encoding scores 100 against itself. *)
Lemma calculate_similarity_self (e : ndarray) :
  e <> [] -> calculate_similarity (Some e) (Some e) = Ok 100%R.
Proof.
  intros He. unfold calculate_similarity, np_sub.
  rewrite Nat.eqb_refl. cbn [bind].
  destruct (Nat.eqb (length e) 0) eqn:Hlen.
  - apply Nat.eqb_eq in Hlen. destruct e; [contradiction|discriminate].
  - unfold np_linalg_norm. rewrite sum_squares_zip_self, sqrt_0.
    f_equal. unfold py_max0, Rdiv. rewrite Rmult_0_l.
    destruct (Rgt_dec ((1 - 0) * 100) 0); lra.
Qed.

(** Two encodings of one length that lie at least [sqrt(len)] apart score
    0. *)
Lemma calculate_similarity_far (e1 e2 : ndarray) :
  e1 <> [] -> length e1 = length e2 ->
  (INR (length e1) <= sum_squares (zip_sub e1 e2))%R ->
  calculate_similarity (Some e1) (Some e2) = Ok 0%R.
Proof.
  intros He Hlen Hfar. unfold calculate_similarity, np_sub.
  rewrite Hlen, Nat.eqb_refl. cbn [bind]. rewrite <- Hlen.
  destruct (Nat.eqb (length e1) 0) eqn:H0; [reflexivity|].
  f_equal. unfold py_max0, np_linalg_norm.
  pose proof (sqrt_length_pos e1 He) as Hpos.
  assert (Hle : (sqrt (INR (length e1)) <= sqrt (sum_squares (zip_sub e1 e2)))%R)
    by (apply sqrt_le_1_alt; exact Hfar).
  assert (Hratio : (1 <= sqrt (sum_squares (zip_sub e1 e2)) /
                         sqrt (INR (length e1)))%R).
  { apply (Rmult_le_reg_r (sqrt (INR (length e1)))); [exact Hpos|].
    unfold Rdiv. rewrite Rmult_assoc, Rinv_l by lra. lra. }
  destruct (Rgt_dec _ 0) as [Hgt|]; [|reflexivity]. lra.
Qed.

(** X22: with the repository's validator plugged into the batch
    processor, an item is reported as successful only if its file exists,
    has an allowed suffix, a size that is neither zero nor above 10 MB,
    passes PIL's verification, and the database search returned the
    matches the entry lists. *)
Theorem run_success_requires_valid_file (file_system : string -> file_facts)
    (search_criminal_database : string -> pyresult (list pydict))
    (path_name : string -> string) (self : BatchProcessor) (sch : schedule)
    (s : summary) (p : string) (found : list pydict) (n : nat) :
  self_results self = [] ->
  In (batch_completed s)
     (run (utils_validate_image_file file_system) search_criminal_database
        path_name self sch) ->
  In (Succeeded p found n) (results s) ->
  path_exists (file_system p) = Ok true /\
  In (lower (path_suffix (file_system p))) [".jpg"; ".jpeg"; ".png"; ".bmp"] /\
  (exists file_size,
     st_size (file_system p) = Ok file_size /\
     (file_size <= 10 * 1024 * 1024)%Z /\ file_size <> 0%Z) /\
  pil_verifies (file_system p) = true /\
  search_criminal_database p = Ok found /\ n = length found.
Proof.
  intros Hfresh Hin Hentry.
  apply run_summary in Hin. cbv zeta in Hin.
  destruct Hin as (_ & _ & _ & _ & Hr).
  rewrite Hr, Hfresh in Hentry. cbn [app] in Hentry.
  apply in_map_iff in Hentry as (q & Hq & _).
  unfold item_entry in Hq.
  destruct (utils_validate_image_file file_system q) as [[|] message] eqn:Hv;
    [|discriminate].
  destruct (search_criminal_database q) as [found'|msg] eqn:Hs;
    [|discriminate].
  injection Hq as -> -> <-.
  destruct (validate_accepts_iff file_system p) as [Hiff _].
  cbv zeta in Hiff. rewrite Hv in Hiff.
  destruct (proj1 Hiff eq_refl) as (He & Hext & Hsize & Hpil).
  repeat split; assumption.
Qed.

(** ** What the two scoring functions guarantee *)

Lemma norm_nonneg (v : ndarray) : (0 <= np_linalg_norm v)%R.
Proof. unfold np_linalg_norm. apply sqrt_pos. Qed.

Lemma quotient_nonneg (d m : R) : (0 <= d)%R -> (0 < m)%R -> (0 <= d / m)%R.
Proof.
  intros Hd Hm. unfold Rdiv. apply Rmult_le_pos; [exact Hd|].
  left. now apply Rinv_0_lt_compat.
Qed.

Lemma sqrt_length_pos' (v : ndarray) :
  Nat.eqb (length v) 0 = false -> (0 < sqrt (INR (length v)))%R.
Proof.
  intros H. apply sqrt_length_pos. intros ->. discriminate.
Qed.

Lemma sum_squares_zip_comm (a b : ndarray) :
  sum_squares (zip_sub a b) = sum_squares (zip_sub b a).
Proof.
  revert b. induction a as [|x a IH]; intros [|y b]; try reflexivity.
  cbn [zip_sub]. rewrite !sum_squares_cons, IH. ring.
Qed.

(** X1: a score, whenever one is returned, lies between 0 and 100. *)
Theorem calculate_similarity_range (e1 e2 : option ndarray) (s : R) :
  calculate_similarity e1 e2 = Ok s -> (0 <= s <= 100)%R.
Proof.
  unfold calculate_similarity.
  destruct e1 as [a|], e2 as [b|]; try (intros [= <-]; lra).
  destruct (np_sub a b) as [d|msg]; cbn [bind]; [|discriminate].
  destruct (Nat.eqb (length a) 0) eqn:Hlen; intros [= <-]; [lra|].
  pose proof (quotient_nonneg _ _ (norm_nonneg d) (sqrt_length_pos' a Hlen)) as Hq.
  unfold py_max0.
  destruct (Rgt_dec ((1 - np_linalg_norm d / sqrt (INR (length a))) * 100) 0);
    lra.
Qed.

(** X2: on two encodings of one length the score is returned, never an
    exception, and does not depend on the order of the arguments. *)
Theorem calculate_similarity_symmetric (a b : ndarray) :
  length a = length b ->
  calculate_similarity (Some a) (Some b) =
    calculate_similarity (Some b) (Some a) /\
  exists s, calculate_similarity (Some a) (Some b) = Ok s.
Proof.
  intros Hlen. unfold calculate_similarity, np_sub.
  rewrite <- Hlen, Nat.eqb_refl. cbn [bind].
  unfold np_linalg_norm. rewrite (sum_squares_zip_comm b a).
  split; [reflexivity|].
  destruct (Nat.eqb (length a) 0); eauto.
Qed.

(** X3: an encoding scores 100 against itself, except the empty one,
    which scores 0. *)
Theorem calculate_similarity_reflexive (e : ndarray) :
  calculate_similarity (Some e) (Some e) =
    Ok (if Nat.eqb (length e) 0 then 0 else 100)%R.
Proof.
  destruct e as [|x e].
  - reflexivity.
  - cbn [length Nat.eqb]. apply calculate_similarity_self. discriminate.
Qed.


(** * A worked probe and gallery *)

Abbreviation ex_recognize_face :=
  (recognize_face unit ex_imread ex_gray ex_detect ex_resize ex_hog).
Abbreviation ex_encode_face :=
  (encode_face unit ex_imread ex_gray ex_detect ex_resize ex_hog).

Lemma DBL_EPSILON_lt_1 : (DBL_EPSILON < 1)%R.
Proof.
  unfold DBL_EPSILON.
  assert (H : (1 < 2 ^ 52)%R) by (apply Rlt_pow_R1; [lra|lia]).
  rewrite <- Rinv_1. apply Rinv_lt_contravar; lra.
Qed.

Lemma normalize_single_bin (a n : nat) :
  0 < a -> normalize (map INR (a :: repeat 0 n)) = 1%R :: repeat 0%R n.
Proof.
  intros Ha. apply lt_INR in Ha. cbn [INR] in Ha.
  assert (H1 : (1 <= INR a)%R).
  { destruct a as [|a']; [cbn in Ha; lra|].
    rewrite S_INR. pose proof (pos_INR a'). lra. }
  unfold normalize, np_linalg_norm. cbn [map].
  rewrite map_repeat. cbn [INR].
  rewrite sum_squares_cons, sum_squares_zeros, Rplus_0_r.
  rewrite sqrt_square by lra.
  pose proof DBL_EPSILON_lt_1 as He.
  destruct (Rgt_dec (INR a) DBL_EPSILON) as [_|Hn]; [|lra].
  cbn [map]. f_equal; [field; lra|].
  rewrite map_repeat. now rewrite Rmult_0_l.
Qed.

Lemma ex_calcHist : calcHist ex_black = map INR (100 * 100 :: repeat 0 255).
Proof.
  unfold calcHist.
  rewrite <- (map_map
    (fun b => count_occ Nat.eq_dec (map Strings.Byte.to_nat (concat ex_black)) b)
    INR).
  apply f_equal. vm_compute. reflexivity.
Qed.

Lemma ex_create_face_encoding : _create_face_encoding ex_hog ex_black = ex_probe.
Proof.
  unfold _create_face_encoding.
  rewrite ex_calcHist, normalize_single_bin by lia. reflexivity.
Qed.

Lemma ex_encode_face_probe : ex_encode_face "probe.jpg" = Some ex_probe.
Proof.
  unfold encode_face, get_face_encoding_from_cv2.
  change (ex_imread "probe.jpg") with (Some tt).
  change (detect_faces_opencv unit ex_gray ex_detect (Some tt))
    with [ex_small; ex_big].
  cbv beta iota delta [ex_resize].
  now rewrite ex_create_face_encoding.
Qed.

Lemma ex_probe_nonempty : ex_probe <> [].
Proof. discriminate. Qed.

Lemma ex_similarity_twin :
  calculate_similarity (Some ex_probe) (Some ex_probe) = Ok 100%R.
Proof. apply calculate_similarity_self, ex_probe_nonempty. Qed.

Lemma ex_similarity_far :
  calculate_similarity (Some ex_probe) (Some (13%R :: repeat 0%R 127)) = Ok 0%R.
Proof.
  apply calculate_similarity_far; [discriminate|reflexivity|].
  change (length ex_probe) with 128.
  change (zip_sub ex_probe (13%R :: repeat 0%R 127))
    with ((1 - 13)%R :: zip_sub (repeat 0%R 127) (repeat 0%R 127)).
  rewrite sum_squares_cons, sum_squares_zip_self.
  rewrite INR_IZR_INZ. change (Z.of_nat 128) with 128%Z. lra.
Qed.

Lemma Rgtb_0_0 : Rgtb 0 0 = false.
Proof. unfold Rgtb. destruct (Rgt_dec 0 0); [lra|reflexivity]. Qed.

Lemma Rgtb_100_0 : Rgtb 100 0 = true.
Proof. apply Rgtb_true. lra. Qed.

Lemma Rgeb_100_default : Rgeb 100 (default_tolerance * 100) = true.
Proof. apply Rgeb_true. unfold default_tolerance. lra. Qed.

(** One iteration of the scan on an entry that has an encoding. *)
Lemma scan_gallery_step (probe : ndarray) (tolerance : R) (face : known_face)
    (rest : list known_face) (bm : option known_face) (bs : R)
    (enc : ndarray) (s : R) :
  encoding face = Some enc ->
  calculate_similarity (Some probe) (Some enc) = Ok s ->
  scan_gallery probe tolerance (face :: rest) bm bs =
    if Rgtb s bs && Rgeb s (tolerance * 100)
    then scan_gallery probe tolerance rest (Some face) s
    else scan_gallery probe tolerance rest bm bs.
Proof. intros He Hs. cbn [scan_gallery]. now rewrite He, Hs. Qed.

(** The far entry is passed over and the twin is returned with 100. *)
Lemma ex_recognize_match :
  ex_recognize_face "probe.jpg" [ex_far; ex_twin] default_tolerance =
    Ok (matched_result ex_twin 100).
Proof.
  unfold recognize_face. rewrite ex_encode_face_probe. unfold recognize_encoding.
  rewrite (scan_gallery_step ex_probe default_tolerance ex_far [ex_twin]
             None 0 _ 0 eq_refl ex_similarity_far).
  rewrite Rgtb_0_0. cbn [andb].
  rewrite (scan_gallery_step ex_probe default_tolerance ex_twin []
             None 0 _ 100 eq_refl ex_similarity_twin).
  rewrite Rgtb_100_0, Rgeb_100_default. reflexivity.
Qed.

(** At tolerance 0 the far entry, scoring 0, is not taken. *)
Lemma ex_recognize_zero_tolerance :
  ex_recognize_face "probe.jpg" [ex_far] 0 = Ok no_match.
Proof.
  unfold recognize_face. rewrite ex_encode_face_probe. unfold recognize_encoding.
  rewrite (scan_gallery_step ex_probe 0 ex_far [] None 0 _ 0 eq_refl
             ex_similarity_far).
  rewrite Rgtb_0_0. reflexivity.
Qed.

Lemma recognize_face_threshold_witness :
  (default_tolerance * 100 = 60)%R /\
  exists probe i face s,
    ex_encode_face "probe.jpg" = Some probe /\
    nth_error [ex_far; ex_twin] i = Some face /\ scores probe face s /\
    matched_result ex_twin 100 = matched_result face s /\
    dict_get (matched_result ex_twin 100) "confidence" = Some (PyFloat s) /\
    (s >= default_tolerance * 100)%R /\
    (forall j face' s', j < i -> nth_error [ex_far; ex_twin] j = Some face' ->
       scores probe face' s' -> (s' < s)%R) /\
    (forall j face' s', i < j -> nth_error [ex_far; ex_twin] j = Some face' ->
       scores probe face' s' -> (s' <= s)%R).
Proof.
  apply (recognize_face_threshold unit ex_imread ex_gray ex_detect ex_resize
           ex_hog "probe.jpg" [ex_far; ex_twin] default_tolerance
           (matched_result ex_twin 100)).
  - exact ex_recognize_match.
  - reflexivity.
Defined.

(** C2, the claim as stated fails: with tolerance 0 the probe is encoded,
    the gallery is not empty and its entry reaches the threshold
    ([0 >= 0]), and still the no-match dict is returned. *)
Lemma recognize_face_zero_tolerance_counterexample :
  ex_encode_face "probe.jpg" = Some ex_probe /\
  scores ex_probe ex_far 0 /\ (0 >= 0 * 100)%R /\
  ex_recognize_face "probe.jpg" [ex_far] 0 = Ok no_match.
Proof.
  split; [exact ex_encode_face_probe|]. split; [|split].
  - eexists. split; [reflexivity|exact ex_similarity_far].
  - lra.
  - exact ex_recognize_zero_tolerance.
Qed.

Lemma recognize_face_no_match_iff_witness :
  ex_recognize_face "probe.jpg" [] default_tolerance = Ok no_match /\
  (ex_recognize_face "probe.jpg" [ex_far] default_tolerance = Ok no_match <->
     ex_encode_face "probe.jpg" = None \/ [ex_far] = [] \/
     exists probe, ex_encode_face "probe.jpg" = Some probe /\
       comparable probe [ex_far] /\
       none_reaches probe [ex_far] default_tolerance).
Proof.
  destruct (recognize_face_no_match_iff unit ex_imread ex_gray ex_detect
              ex_resize ex_hog "probe.jpg" [ex_far] default_tolerance)
    as (Hempty & _ & Hpos).
  split; [exact Hempty|]. apply Hpos. unfold default_tolerance. lra.
Defined.

(** C3, the claim as stated fails: arrays of lengths 2 and 3 make the
    subtraction raise, and arrays of lengths 1 and 2 are broadcast and
    score 100. *)
Lemma calculate_similarity_mismatch_counterexample :
  calculate_similarity (Some [1; 2]%R) (Some [1; 2; 3]%R) =
    Raise "operands could not be broadcast together" /\
  calculate_similarity (Some [1]%R) (Some [1; 1]%R) = Ok 100%R.
Proof.
  split; [reflexivity|].
  unfold calculate_similarity, np_sub.
  cbn [length Nat.eqb hd map bind INR].
  unfold np_linalg_norm. rewrite !sum_squares_cons.
  change (sum_squares []) with 0%R.
  replace ((1 - 1) * (1 - 1) + ((1 - 1) * (1 - 1) + 0))%R with 0%R by ring.
  rewrite sqrt_0, sqrt_1. f_equal. unfold py_max0.
  destruct (Rgt_dec ((1 - 0 / 1) * 100) 0); lra.
Qed.

Lemma calculate_similarity_none_or_mismatch_witness :
  calculate_similarity None (Some [1]%R) = Ok 0%R /\
  calculate_similarity (Some [1; 2]%R) (Some [1; 2; 3]%R) =
    Raise "operands could not be broadcast together" /\
  exists s, calculate_similarity (Some [1]%R) (Some [1; 1]%R) = Ok s /\
            (0 <= s)%R.
Proof.
  split; [|split].
  - apply (proj1 (calculate_similarity_none_or_mismatch None (Some [1]%R))).
    left. reflexivity.
  - apply (proj1 (proj2 (calculate_similarity_none_or_mismatch
                           (Some [1; 2]%R) (Some [1; 2; 3]%R)))
             [1; 2]%R [1; 2; 3]%R eq_refl eq_refl);
      intro H; discriminate H.
  - apply (proj2 (proj2 (calculate_similarity_none_or_mismatch
                           (Some [1]%R) (Some [1; 1]%R)))
             [1]%R [1; 1]%R eq_refl eq_refl).
    left. reflexivity.
Defined.

Lemma create_face_encoding_128_witness :
  length (_create_face_encoding ex_hog ex_black) = 128 /\
  firstn 64 (_create_face_encoding ex_hog ex_black) =
    firstn 64 (normalize (calcHist ex_black)) /\
  skipn 64 (_create_face_encoding ex_hog ex_black) =
    firstn 64 (ex_hog ex_black).
Proof.
  destruct (create_face_encoding_128 unit ex_imread ex_gray ex_detect
              ex_resize ex_hog) as (Hcrop & _).
  - intros g. vm_compute. reflexivity.
  - intros img _. unfold ex_hog. rewrite repeat_length. reflexivity.
  - destruct (Hcrop ex_black) as (_ & Hlen & Hhist & Hhog).
    + vm_compute. reflexivity.
    + split; [exact Hlen|]. split; [exact Hhist|exact Hhog].
Defined.

Lemma get_face_encoding_largest_face_witness :
  get_face_encoding_from_cv2 unit ex_gray ex_detect ex_resize ex_hog (Some tt) =
    Some (encoding_of_region unit ex_gray ex_resize ex_hog tt ex_big) /\
  exists i f,
    nth_error [ex_small; ex_big] i = Some f /\
    (forall g, In g [ex_small; ex_big] -> (rw g * rh g <= rw f * rh f)%Z) /\
    (forall j g, j < i -> nth_error [ex_small; ex_big] j = Some g ->
       (rw g * rh g < rw f * rh f)%Z) /\
    get_face_encoding_from_cv2 unit ex_gray ex_detect ex_resize ex_hog (Some tt) =
      Some (encoding_of_region unit ex_gray ex_resize ex_hog tt f).
Proof.
  pose proof (get_face_encoding_largest_face unit ex_gray ex_detect ex_resize
                ex_hog tt) as H.
  cbv zeta in H. destruct H as (Hgen & Hpair). split.
  - apply (Hpair ex_small ex_big); [left; reflexivity|reflexivity|reflexivity].
  - apply Hgen.
    + apply Nat.lt_succ_diag_r.
    + repeat constructor; discriminate.
Defined.

Lemma recognize_face_same_no_match_witness :
  ex_recognize_face "missing.jpg" [ex_twin] default_tolerance =
    Ok [("matched", PyBool false); ("name", PyStr "Unknown");
        ("confidence", PyFloat 0); ("criminal_id", PyNone)] /\
  ex_recognize_face "probe.jpg" [] default_tolerance =
    Ok [("matched", PyBool false); ("name", PyStr "Unknown");
        ("confidence", PyFloat 0); ("criminal_id", PyNone)].
Proof.
  split.
  - apply (proj1 (recognize_face_same_no_match unit ex_imread ex_gray
                    ex_detect ex_resize ex_hog "missing.jpg" [ex_twin]
                    default_tolerance)).
    reflexivity.
  - apply (proj2 (recognize_face_same_no_match unit ex_imread ex_gray
                    ex_detect ex_resize ex_hog "probe.jpg" [ex_twin]
                    default_tolerance)).
Defined.

(** * A worked batch *)

Abbreviation ex_run := (run ex_validate ex_search ex_path_name).

Ltac find_event := repeat (first [left; reflexivity | right]).

Lemma ex_run_full :
  In (batch_completed ex_summary_full)
     (ex_run (BatchProcessor_init ex_paths) ex_sched_full).
Proof. unfold run. cbv -[ex_hit]. find_event. Qed.

Lemma ex_run_cancel :
  In (batch_completed ex_summary_cancel)
     (ex_run (BatchProcessor_init ex_paths) ex_sched_cancel).
Proof. unfold run. cbv -[ex_hit]. find_event. Qed.

Lemma ex_completion_perm : Permutation ex_completion ex_paths.
Proof. apply perm_swap. Qed.

Lemma batch_failure_isolated_witness :
  exists s,
    In (batch_completed s) (ex_run (BatchProcessor_init ex_paths) ex_sched_full) /\
    total s = 5 /\ processed s = 5 /\ successful s = 4 /\ failed s = 1 /\
    exists error_msg,
      In (Failed "img3.jpg" error_msg) (results s) /\ error_msg <> "".
Proof.
  destruct (batch_failure_isolated ex_validate ex_search ex_path_name
              (BatchProcessor_init ex_paths) ex_sched_full
              eq_refl eq_refl eq_refl eq_refl ex_completion_perm)
    as (s & Hin & Ht & Hp & Hs & Hf & _ & _ & Hinvalid).
  exists s. split; [exact Hin|]. split; [exact Ht|]. split; [exact Hp|].
  split; [exact Hs|]. split; [exact Hf|].
  apply Hinvalid; [|reflexivity]. right. right. left. reflexivity.
Defined.

(** C6, the claim as stated fails: an exception whose text is empty is
    recorded as the item's failure with the empty error message. *)
Lemma batch_empty_message_counterexample :
  exists s,
    In (batch_completed s)
       (run ex_validate_ok ex_search_raising ex_path_name
          (BatchProcessor_init ex_paths) ex_sched_full) /\
    total s = 5 /\ successful s = 4 /\ failed s = 1 /\
    results s =
      [Succeeded "img2.jpg" [] 0; Succeeded "img1.jpg" [] 0;
       Failed "img3.jpg" "";
       Succeeded "img4.jpg" [] 0; Succeeded "img5.jpg" [] 0].
Proof.
  eexists. split; [unfold run; cbv; find_event|].
  repeat split; reflexivity.
Qed.

Lemma batch_cancel_mid_run_witness :
  exists start evs s finish,
    ex_run (BatchProcessor_init ex_paths) ex_sched_cancel =
      (LogInfo start :: map Submit ex_paths) ++ evs ++
      [LogInfo "Batch processing cancelled"; batch_completed s;
       LogInfo finish] /\
    forallb is_item_event evs = true /\
    processed s = 2 /\ processed s <= 2 /\ total s = 5 /\
    results s =
      map (item_entry ex_validate ex_search) ["img2.jpg"; "img1.jpg"] /\
    saw_cancel (ex_run (BatchProcessor_init ex_paths) ex_sched_cancel) /\
    emits_completed (ex_run (BatchProcessor_init ex_paths) ex_sched_cancel).
Proof.
  apply (batch_cancel_mid_run ex_validate ex_search ex_path_name
           (BatchProcessor_init ex_paths) ex_sched_cancel 2);
    try reflexivity.
  cbn. lia.
Defined.

(** C7, the claim as stated fails: the run of five images cancelled after
    two were handled logs the cancellation and then emits
    [batch_completed], with a summary of the two handled items, as a run
    that was not cancelled does. *)
Lemma batch_cancel_emits_completed_counterexample :
  saw_cancel (ex_run (BatchProcessor_init ex_paths) ex_sched_cancel) /\
  emits_completed (ex_run (BatchProcessor_init ex_paths) ex_sched_cancel) /\
  In (batch_completed ex_summary_cancel)
     (ex_run (BatchProcessor_init ex_paths) ex_sched_cancel) /\
  processed ex_summary_cancel = 2.
Proof.
  split; [|split; [|split; [exact ex_run_cancel|reflexivity]]].
  - unfold saw_cancel, run. cbv -[ex_hit]. find_event.
  - exists ex_summary_cancel. exact ex_run_cancel.
Qed.

Lemma summary_results_in_completion_order_witness :
  map entry_path (results ex_summary_full) = ex_completion /\
  Permutation (map entry_path (results ex_summary_full)) ex_paths.
Proof.
  destruct (summary_results_in_completion_order ex_validate ex_search
              ex_path_name (BatchProcessor_init ex_paths) ex_sched_full
              ex_summary_full eq_refl ex_run_full) as (_ & Hfull).
  destruct (Hfull eq_refl eq_refl) as (Horder & Hperm).
  split; [exact Horder|]. exact (proj1 (Hperm ex_completion_perm)).
Defined.

(** C8, the claim as stated fails: the second image completes first, and
    the summary lists it first. *)
Lemma summary_results_order_counterexample :
  In (batch_completed ex_summary_full)
     (ex_run (BatchProcessor_init ex_paths) ex_sched_full) /\
  image_paths (BatchProcessor_init ex_paths) =
    ["img1.jpg"; "img2.jpg"; "img3.jpg"; "img4.jpg"; "img5.jpg"] /\
  map entry_path (results ex_summary_full) =
    ["img2.jpg"; "img1.jpg"; "img3.jpg"; "img4.jpg"; "img5.jpg"].
Proof. split; [exact ex_run_full|]. split; reflexivity. Qed.

Lemma summary_counters_witness :
  (processed ex_summary_cancel =
     successful ex_summary_cancel + failed ex_summary_cancel /\
   total ex_summary_cancel = 5) /\
  (processed ex_summary_full =
     successful ex_summary_full + failed ex_summary_full /\
   total ex_summary_full = 5).
Proof.
  split.
  - exact (summary_counters ex_validate ex_search ex_path_name
             (BatchProcessor_init ex_paths) ex_sched_cancel
             ex_summary_cancel ex_run_cancel).
  - exact (summary_counters ex_validate ex_search ex_path_name
             (BatchProcessor_init ex_paths) ex_sched_full
             ex_summary_full ex_run_full).
Defined.

(** * Worked instances of the further properties *)

Abbreviation ex_worker_run :=
  (RecognitionWorker_run unit ex_imread ex_gray ex_detect ex_resize ex_hog
     (Ok [ex_far; ex_twin]) unit ex_criminal_item ex_get_criminal).
Abbreviation ex_run_timeout :=
  (ex_run (BatchProcessor_init ex_paths) ex_sched_timeout).
Abbreviation ex_save :=
  (save_batch_results ex_add_suspect ex_save_match).

Lemma Rgeb_0_60 : Rgeb 0 60 = false.
Proof. unfold Rgeb. destruct (Rge_dec 0 60); [lra|reflexivity]. Qed.

Lemma Rgeb_100_60 : Rgeb 100 60 = true.
Proof. apply Rgeb_true. lra. Qed.

(** The ranked search on the worked gallery: the far entry is passed
    over, the twin is listed. *)
Lemma ex_worker_run_trace :
  ex_worker_run "probe.jpg" =
    [rec_progress "Extracting face encoding...";
     rec_progress "Loading criminal database...";
     rec_progress "Comparing against 2 mugshots...";
     rec_progress "Found 1 matches";
     rec_finished [ex_twin_match]].
Proof.
  unfold RecognitionWorker_run. rewrite ex_encode_face_probe.
  rewrite (find_matches_skip unit ex_criminal_item ex_get_criminal ex_probe
             ex_far [ex_twin] [] 0 ex_similarity_far Rgeb_0_60).
  rewrite (find_matches_take unit ex_criminal_item ex_get_criminal ex_probe
             ex_twin [] [] 100 7%Z tt "John Doe" "CR-007"
             ex_similarity_twin Rgeb_100_60 eq_refl eq_refl eq_refl eq_refl).
  reflexivity.
Qed.


Lemma ex_run_validated :
  In (batch_completed ex_summary_full)
     (run (utils_validate_image_file ex_file_system) ex_search ex_path_name
        (BatchProcessor_init ex_paths) ex_sched_full).
Proof. unfold run. cbv -[ex_hit]. find_event. Qed.

Lemma ex_save_logged :
  snd (ex_save ex_summary_full 3) =
    LogInfo "Batch results saved: 4 suspects, 1 matches".
Proof. reflexivity. Qed.

Lemma calculate_similarity_range_witness : (0 <= 100 <= 100)%R.
Proof.
  exact (calculate_similarity_range (Some ex_probe) (Some ex_probe) 100
           ex_similarity_twin).
Defined.

Lemma calculate_similarity_symmetric_witness :
  calculate_similarity (Some ex_probe) (Some (13%R :: repeat 0%R 127)) =
    calculate_similarity (Some (13%R :: repeat 0%R 127)) (Some ex_probe) /\
  exists s,
    calculate_similarity (Some ex_probe) (Some (13%R :: repeat 0%R 127)) = Ok s.
Proof.
  apply (calculate_similarity_symmetric ex_probe (13%R :: repeat 0%R 127)).
  reflexivity.
Defined.


Lemma recognize_face_lower_tolerance_witness :
  ex_recognize_face "probe.jpg" [ex_far; ex_twin] (3 / 10) =
    Ok (matched_result ex_twin 100).
Proof.
  apply (recognize_face_lower_tolerance unit ex_imread ex_gray ex_detect
           ex_resize ex_hog "probe.jpg" [ex_far; ex_twin] default_tolerance
           (3 / 10) (matched_result ex_twin 100)).
  - exact ex_recognize_match.
  - reflexivity.
  - unfold default_tolerance. lra.
Defined.

Lemma run_after_cancel_witness :
  ex_run (fst (cancel (BatchProcessor_init ex_paths))) ex_sched_full =
    (LogInfo "Starting batch processing: 5 images" :: map Submit ex_paths) ++
    [LogInfo "Batch processing cancelled";
     batch_completed
       {| total := 5; processed := 0; successful := 0; failed := 0;
          total_matches := 0; results := [];
          timestamp := "2024-05-01T12:00:00" |};
     LogInfo "Batch processing completed: 0 successful, 0 failed"].
Proof.
  apply (run_after_cancel ex_validate ex_search ex_path_name
           (BatchProcessor_init ex_paths) ex_sched_full).
  discriminate.
Defined.

Lemma run_timed_out_witness :
  ~ emits_completed ex_run_timeout /\
  In (error_occurred "Batch Process" "3 (of 5) futures unfinished")
     ex_run_timeout /\
  progress_of ex_run_timeout = [(1, 5); (2, 5)].
Proof.
  apply (run_timed_out ex_validate ex_search ex_path_name
           (BatchProcessor_init ex_paths) ex_sched_timeout); reflexivity.
Defined.

Lemma summary_results_and_matches_witness :
  exists new,
    results ex_summary_full = [] ++ new /\
    length new = 5 /\
    total_matches ex_summary_full = list_sum (map entry_match_count new) /\
    Forall (fun e => match e with
                     | Succeeded _ found n => n = length found
                     | Failed _ _ => True
                     end) new.
Proof.
  exact (summary_results_and_matches ex_validate ex_search ex_path_name
           (BatchProcessor_init ex_paths) ex_sched_full ex_summary_full
           ex_run_full).
Defined.


Lemma ex_worker_finished :
  In (rec_finished [ex_twin_match]) (ex_worker_run "probe.jpg").
Proof. rewrite ex_worker_run_trace. find_event. Qed.

Lemma RecognitionWorker_ranked_witness :
  StronglySorted (fun a b => (m_similarity a >= m_similarity b)%R)
                 [ex_twin_match] /\
  forall m, In m [ex_twin_match] ->
    (m_similarity m >= 60)%R /\
    exists probe known face,
      ex_encode_face "probe.jpg" = Some probe /\
      Ok [ex_far; ex_twin] = Ok known /\ In face known /\
      calculate_similarity (Some probe) (encoding face) =
        Ok (m_similarity m) /\
      criminal_id face = Some (m_criminal_id m) /\
      name face = Some (m_name m) /\
      criminal_code face = Some (m_criminal_code m).
Proof.
  exact (RecognitionWorker_ranked unit ex_imread ex_gray ex_detect ex_resize
           ex_hog (Ok [ex_far; ex_twin]) unit ex_criminal_item ex_get_criminal
           "probe.jpg" [ex_twin_match] ex_worker_finished).
Defined.

Lemma RecognitionWorker_head_is_best_match_witness :
  exists m others,
    In (rec_finished (m :: others)) (ex_worker_run "probe.jpg") /\
    matched_result ex_twin 100 =
      [("matched", PyBool true); ("name", PyStr (m_name m));
       ("confidence", PyFloat (m_similarity m));
       ("criminal_id", PyInt (m_criminal_id m));
       ("criminal_code", PyStr (m_criminal_code m))].
Proof.
  apply (RecognitionWorker_head_is_best_match unit ex_imread ex_gray ex_detect
           ex_resize ex_hog (Ok [ex_far; ex_twin]) unit ex_criminal_item
           ex_get_criminal "probe.jpg" [ex_far; ex_twin]
           (matched_result ex_twin 100)).
  - reflexivity.
  - intros face cid _ _. exists tt. reflexivity.
  - intros msg. rewrite ex_worker_run_trace.
    intros [H | [H | [H | [H | [H | []]]]]]; discriminate H.
  - exact ex_recognize_match.
  - reflexivity.
Defined.

Lemma save_batch_results_total_matches_witness :
  length (filter is_match_row (fst (ex_save ex_summary_full 3))) =
    total_matches ex_summary_full.
Proof.
  exact (save_batch_results_total_matches ex_validate ex_search ex_path_name
           ex_add_suspect ex_save_match (BatchProcessor_init ex_paths)
           ex_sched_full ex_summary_full 3 _ eq_refl ex_run_full
           ex_save_logged).
Defined.

Lemma ex_distinct_keys :
  NoDup (map area_key (ex_detect (ex_gray tt))).
Proof.
  repeat constructor.
  - intros [H | []]. vm_compute in H. discriminate H.
  - intros [].
Qed.

Lemma get_face_encoding_order_independent_witness :
  get_face_encoding_from_cv2 unit ex_gray ex_detect ex_resize ex_hog (Some tt) =
  get_face_encoding_from_cv2 unit ex_gray ex_detect_rev ex_resize ex_hog
    (Some tt).
Proof.
  apply (get_face_encoding_order_independent unit ex_gray ex_detect
           ex_detect_rev ex_resize ex_hog tt).
  - apply perm_swap.
  - exact ex_distinct_keys.
Defined.

Lemma run_success_requires_valid_file_witness :
  path_exists (ex_file_system "img1.jpg") = Ok true /\
  In (lower (path_suffix (ex_file_system "img1.jpg")))
     [".jpg"; ".jpeg"; ".png"; ".bmp"] /\
  (exists file_size,
     st_size (ex_file_system "img1.jpg") = Ok file_size /\
     (file_size <= 10 * 1024 * 1024)%Z /\ file_size <> 0%Z) /\
  pil_verifies (ex_file_system "img1.jpg") = true /\
  ex_search "img1.jpg" = Ok [ex_hit] /\ 1 = length [ex_hit].
Proof.
  apply (run_success_requires_valid_file ex_file_system ex_search ex_path_name
           (BatchProcessor_init ex_paths) ex_sched_full ex_summary_full
           "img1.jpg" [ex_hit] 1).
  - reflexivity.
  - exact ex_run_validated.
  - right. left. reflexivity.
Defined.
